(** * Face anonymizer: the detection and anonymization pipeline of
      [backend/main.py] ([detect_faces_deepface], [detect_faces_opencv],
      [anonymize_face], [process_image], [process_video]).

    The Python code works on numpy arrays that are shared by reference and
    mutated in place, and it calls OpenCV and DeepFace.  The embedding keeps
    both aspects: arrays live in a store and are named by references, slices
    are views on a stored array, and the library calls are the operations of
    an interface ([Vision]) of which only the documented behaviour is fixed. *)

From Stdlib Require Import ZArith QArith Lia.
From stdpp Require Import base option list strings gmap.

Local Open Scope Z_scope.

(** ** Exceptions and results *)

(** Instances of Python's [Exception] class, the ones an [except Exception]
    clause catches. *)
Inductive exn : Type :=
  | cv2_error
  | ValueError
  | ZeroDivisionError
  | OtherException (msg : string).

Inductive result (A : Type) : Type :=
  | Ok (a : A)
  | Raise (e : exn).
Arguments Ok {A} a.
Arguments Raise {A} e.

(** ** numpy arrays *)

(** An image is an array of shape [(rows, cols, chans)]; [px a i j c] is the
    value [a[i, j, c]] (a byte for the frames the pipeline handles).  Only
    indices inside the shape are meaningful. *)
Record ndarray : Type := mk_ndarray {
  rows : nat;
  cols : nat;
  chans : nat;
  px : nat -> nat -> nat -> Z
}.

Definition shape (a : ndarray) : nat * nat * nat := (rows a, cols a, chans a).

Definition is_empty (a : ndarray) : bool :=
  ((rows a =? 0) || (cols a =? 0) || (chans a =? 0))%nat.

#[global] Instance ndarray_inhabited : Inhabited ndarray :=
  populate (mk_ndarray 0 0 0 (fun _ _ _ => 0)).

(** Arrays are Python objects: the store maps a reference to the array it
    names.  A new object gets the next free reference. *)
Abbreviation ref := nat (only parsing).
Abbreviation store := (list ndarray) (only parsing).

(** What a Python variable holding an array denotes: a whole stored array,
    or the view [base[r0:r1, c0:c1]] that basic slicing returns (the bounds
    are already resolved against the shape of the base). *)
Inductive array_ref : Type :=
  | Whole (r : ref)
  | View (r : ref) (r0 r1 c0 c1 : nat).

Definition view_of (a : ndarray) (r0 r1 c0 c1 : nat) : ndarray :=
  {| rows := r1 - r0; cols := c1 - c0; chans := chans a;
     px := fun i j c => px a (r0 + i)%nat (c0 + j)%nat c |}.

Definition value_of (s : store) (v : array_ref) : ndarray :=
  match v with
  | Whole r => s !!! r
  | View r r0 r1 c0 c1 => view_of (s !!! r) r0 r1 c0 c1
  end.

(** Python's resolution of one bound of [a[lo:hi]] on an axis of length [n]:
    a negative bound counts from the end, and the result is clipped to
    [0..n]. *)
Definition slice_index (n i : Z) : Z :=
  if i <? 0 then Z.max 0 (i + n) else Z.min i n.

Definition slice_bounds (n : nat) (lo hi : Z) : nat * nat :=
  let s := slice_index (Z.of_nat n) lo in
  let e := slice_index (Z.of_nat n) hi in
  (Z.to_nat s, Z.to_nat (Z.max s e)).
Arguments slice_bounds : simpl never.

(** Broadcasting of one axis in an assignment: the source axis has the
    target's length, or length 1 and is repeated. *)
Definition broadcast_dim (src tgt : nat) : bool :=
  ((src =? tgt) || (src =? 1))%nat.

Definition bidx (src k : nat) : nat := if (src =? 1)%nat then 0%nat else k.

Definition in_box (r0 r1 c0 c1 i j : nat) : bool :=
  ((r0 <=? i) && (i <? r1) && (c0 <=? j) && (j <? c1))%nat.

(** [a[r0:r1, c0:c1] = src] on the contents. *)
Definition assign (a : ndarray) (r0 r1 c0 c1 : nat) (src : ndarray) : ndarray :=
  {| rows := rows a; cols := cols a; chans := chans a;
     px := fun i j c =>
       if in_box r0 r1 c0 c1 i j
       then px src (bidx (rows src) (i - r0)) (bidx (cols src) (j - c0))
                   (bidx (chans src) c)
       else px a i j c |}.

(** ** The monad of the pipeline: a store of arrays, and exceptions *)

Definition M (A : Type) : Type := store -> store * result A.

Definition ret {A} (a : A) : M A := fun s => (s, Ok a).

Definition bind {A B} (m : M A) (f : A -> M B) : M B := fun s =>
  match m s with
  | (s', Ok a) => f a s'
  | (s', Raise e) => (s', Raise e)
  end.

Declare Scope py_scope.
Delimit Scope py_scope with py.
Bind Scope py_scope with M.
Notation "x ← y ; z" := (bind y (fun x => z)) : py_scope.
Notation "y ;; z" := (bind y (fun _ => z)) : py_scope.
Local Open Scope py_scope.

Definition raise {A} (e : exn) : M A := fun s => (s, Raise e).

(** [try: body except Exception as e: handler e]. *)
Definition try_except {A} (body : M A) (handler : exn -> M A) : M A := fun s =>
  match body s with
  | (s', Ok a) => (s', Ok a)
  | (s', Raise e) => handler e s'
  end.

Definition alloc (a : ndarray) : M array_ref := fun s =>
  (s ++ [a], Ok (Whole (length s))).

(** [image[ys.1:ys.2, xs.1:xs.2]]: a view, nothing is copied. *)
Definition getitem (image : ref) (ys xs : Z * Z) : M array_ref := fun s =>
  let a := s !!! image in
  let rb := slice_bounds (rows a) ys.1 ys.2 in
  let cb := slice_bounds (cols a) xs.1 xs.2 in
  (s, Ok (View image rb.1 rb.2 cb.1 cb.2)).

(** [image[ys.1:ys.2, xs.1:xs.2] = v]: numpy raises [ValueError] when the
    shape of [v] cannot be broadcast to the shape of the slice. *)
Definition setitem (image : ref) (ys xs : Z * Z) (v : array_ref) : M unit := fun s =>
  let a := s !!! image in
  let rb := slice_bounds (rows a) ys.1 ys.2 in
  let cb := slice_bounds (cols a) xs.1 xs.2 in
  let src := value_of s v in
  if broadcast_dim (rows src) (rb.2 - rb.1) && broadcast_dim (cols src) (cb.2 - cb.1)
     && broadcast_dim (chans src) (chans a)
  then (<[image := assign a rb.1 rb.2 cb.1 cb.2 src]> s, Ok ())
  else (s, Raise ValueError).

Definition zeros (r c k : nat) : ndarray :=
  {| rows := r; cols := c; chans := k; px := fun _ _ _ => 0 |}.

(** [np.zeros_like(v)]: a new array of the shape of [v]. *)
Definition np_zeros_like (v : array_ref) : M array_ref := fun s =>
  let a := value_of s v in
  alloc (zeros (rows a) (cols a) (chans a)) s.

(** [v.copy()]: a new array with the contents of [v]. *)
Definition np_copy (v : array_ref) : M ref := fun s =>
  (s ++ [value_of s v], Ok (length s)).

(** [a // b] on Python integers.  The rectangles of the cascade detector
    are numpy integers, which divide like Python's by every divisor but 0
    (there numpy gives 0 and a warning instead of raising): the model is
    that of the code for every divisor other than 0, and for the divisor 0
    on the coordinates DeepFace reports, which are Python integers. *)
Definition floordiv (a b : Z) : M Z :=
  if b =? 0 then raise ZeroDivisionError else ret (a / b).

(** ** The libraries behind the pipeline *)

Inductive interpolation : Type := INTER_NEAREST | INTER_LINEAR.

(** A face region [(x, y, w, h)]. *)
Definition region : Type := Z * Z * Z * Z.

(** One entry of the list [DeepFace.extract_faces] returns: a dict of which
    the code reads the key ['facial_area'] only, itself a dict from
    coordinate names to integers.  [None] is a missing key. *)
Record face_obj : Type := mk_face { facial_area : option (gmap string Z) }.

(** OpenCV and DeepFace.  The calls read their source array and return a
    new object or raise; they do not write to their argument.  The
    detectors, the colour conversion and the blur are left open.  Of
    [cv2.resize] the entry checks are part of the model (see [cv2_resize]);
    [resize_interp interp src r c] gives the values of the [r] x [c] result. *)
Class Vision : Type := {
  extract_faces : ndarray -> string -> bool -> bool -> result (list face_obj);
  cvtColor_BGR2GRAY : ndarray -> result ndarray;
  detectMultiScale : ndarray -> Q -> Z -> result (list region);
  GaussianBlur : ndarray -> Z * Z -> Z -> result ndarray;
  resize_interp : interpolation -> ndarray -> nat -> nat -> nat -> nat -> nat -> Z
}.

(** ** Video capture and writer objects *)

(** The object [cv2.VideoCapture(video_path)] returns: whether the file
    could be opened, the properties of its container ([cap.get] returns
    them as floats; the frame rate need not be a whole number, the sizes and
    the frame count are), the frames not read yet, and whether [release]
    was called. *)
Record capture : Type := mk_capture {
  cap_opened : bool;
  cap_fps : Q;
  cap_width : Z;
  cap_height : Z;
  cap_total : Z;
  cap_frames : list ndarray;
  cap_released : bool
}.

(** The object [cv2.VideoWriter(output_path, fourcc, fps, (width, height))]
    returns, with the frames written to it so far. *)
Record writer : Type := mk_writer {
  out_fourcc : string;
  out_fps : Z;
  out_size : Z * Z;
  out_frames : list ndarray;
  out_released : bool
}.

(** [int(q)] on a float: truncation towards zero. *)
Definition py_int (q : Q) : Z := Z.quot (Qnum q) (Z.pos (Qden q)).

(** [cap.get(prop)]: 0 when the capture is not opened. *)
Definition cap_get (cap : capture) (prop : capture -> Q) : Q :=
  if cap_opened cap then prop cap else 0%Q.

Definition CAP_PROP_FPS : capture -> Q := cap_fps.
Definition CAP_PROP_FRAME_WIDTH : capture -> Q := fun c => inject_Z (cap_width c).
Definition CAP_PROP_FRAME_HEIGHT : capture -> Q := fun c => inject_Z (cap_height c).
Definition CAP_PROP_FRAME_COUNT : capture -> Q := fun c => inject_Z (cap_total c).

Definition isOpened (cap : capture) : bool := cap_opened cap && negb (cap_released cap).

Definition VideoWriter (fourcc : string) (fps : Z) (size : Z * Z) : writer :=
  {| out_fourcc := fourcc; out_fps := fps; out_size := size;
     out_frames := []; out_released := false |}.

Definition out_write (out : writer) (frame : ndarray) : writer :=
  {| out_fourcc := out_fourcc out; out_fps := out_fps out; out_size := out_size out;
     out_frames := out_frames out ++ [frame]; out_released := out_released out |}.

Definition cap_release (cap : capture) : capture :=
  {| cap_opened := false; cap_fps := cap_fps cap; cap_width := cap_width cap;
     cap_height := cap_height cap; cap_total := cap_total cap;
     cap_frames := cap_frames cap; cap_released := true |}.

Definition out_release (out : writer) : writer :=
  {| out_fourcc := out_fourcc out; out_fps := out_fps out; out_size := out_size out;
     out_frames := out_frames out; out_released := true |}.

Definition cap_with_frames (cap : capture) (frames : list ndarray) : capture :=
  {| cap_opened := cap_opened cap; cap_fps := cap_fps cap; cap_width := cap_width cap;
     cap_height := cap_height cap; cap_total := cap_total cap;
     cap_frames := frames; cap_released := cap_released cap |}.

(** The state [process_video] works on, and what it leaves behind. *)
Record video_state : Type := mk_video_state {
  vs_store : store;
  vs_cap : capture;
  vs_out : writer
}.

Section Pipeline.
Context `{V : Vision}.

(** A library call on the contents of [v] whose result is a new array. *)
Definition call_new (f : ndarray -> result ndarray) (v : array_ref) : M array_ref :=
  fun s => match f (value_of s v) with
           | Ok a => alloc a s
           | Raise e => (s, Raise e)
           end.

Definition cv2_cvtColor (v : array_ref) : M array_ref :=
  call_new cvtColor_BGR2GRAY v.

Definition cv2_GaussianBlur (v : array_ref) (ksize : Z * Z) (sigma : Z) : M array_ref :=
  call_new (fun a => GaussianBlur a ksize sigma) v.

(** The array [cv2.resize] returns for a source [src] and a valid size. *)
Definition resized (interp : interpolation) (src : ndarray) (dw dh : Z) : ndarray :=
  {| rows := Z.to_nat dh; cols := Z.to_nat dw; chans := chans src;
     px := resize_interp interp src (Z.to_nat dh) (Z.to_nat dw) |}.

(** [cv2.resize(v, dsize, interpolation=interp)], no scale factors given:
    an empty source, or a target size with a dimension that is not positive,
    fails an assertion of OpenCV, which Python sees as [cv2.error];
    otherwise the result is a new array of [dsize.2] rows and [dsize.1]
    columns. *)
Definition cv2_resize (v : array_ref) (dsize : Z * Z) (interp : interpolation) : M array_ref :=
  fun s =>
    let src := value_of s v in
    if is_empty src || (dsize.1 <=? 0) || (dsize.2 <=? 0) then (s, Raise cv2_error)
    else alloc (resized interp src dsize.1 dsize.2) s.

(** *** detect_faces_opencv (lines 87-98) *)
Definition detect_faces_opencv (image_array : ref) : M (list region) :=
  try_except
    (gray ← cv2_cvtColor (Whole image_array);
     faces ← (fun s => (s, detectMultiScale (value_of s gray) (13 # 10)%Q 5));
     ret ((fun '(x, y, w, h) => (x, y, w, h)) <$> faces))
    (fun e => ret []).

(** The body of the loop of lines 72-79 for one detection: [None] when
    nothing is appended. *)
Definition face_location (face : face_obj) : option region :=
  let area := default ∅ (facial_area face) in
  if decide (area = ∅) then None
  else
    let x := default 0 (area !! "x") in
    let y := default 0 (area !! "y") in
    let w := default 0 (area !! "w") in
    let h := default 0 (area !! "h") in
    Some (x, y, w, h).

(** *** detect_faces_deepface (lines 60-85) *)
Definition detect_faces_deepface (image_array : ref) : M (list region) :=
  try_except
    (faces ← (fun s =>
       (s, extract_faces (s !!! image_array) "retinaface" false false));
     ret (omap face_location faces))
    (fun e => detect_faces_opencv image_array).

(** Line 107. *)
Definition kernel_size (intensity : Z) : Z :=
  if intensity `mod` 2 =? 1 then intensity else intensity + 1.

(** *** anonymize_face (lines 100-125) *)
Definition anonymize_face (image : ref) (x y w h : Z) (method : string)
    (intensity : Z) : M ref :=
  face_region ← getitem image (y, y + h) (x, x + w);
  anonymized ←
    (if String.eqb method "blur" then
       cv2_GaussianBlur face_region (kernel_size intensity, kernel_size intensity) 0
     else if String.eqb method "pixelate" then
       dw ← floordiv w intensity;
       dh ← floordiv h intensity;
       small_face ← cv2_resize face_region (dw, dh) INTER_LINEAR;
       cv2_resize small_face (w, h) INTER_NEAREST
     else if String.eqb method "mask" then
       np_zeros_like face_region
     else
       ret face_region);
  setitem image (y, y + h) (x, x + w) anonymized;;
  ret image.

(** The [for] loop of lines 133-134. *)
Fixpoint anonymize_all (image_array : ref) (face_locations : list region)
    (method : string) (intensity : Z) : M ref :=
  match face_locations with
  | [] => ret image_array
  | (x, y, w, h) :: rest =>
      image_array ← anonymize_face image_array x y w h method intensity;
      anonymize_all image_array rest method intensity
  end.

(** *** process_image (lines 127-136) *)
Definition process_image (image_array : ref) (method : string) (intensity : Z)
    : M (ref * Z) :=
  face_locations ← detect_faces_deepface image_array;
  image_array ← anonymize_all image_array face_locations method intensity;
  ret (image_array, Z.of_nat (length face_locations)).

(** The [while] loop of lines 155-171, on the frames the capture still
    holds: [cap.read()] takes the first one, and returns [(False, None)]
    when there is none.  The result is the state at the end of the loop or
    at the statement that raised, and the counters. *)
Fixpoint video_loop (frames : list ndarray) (cap : capture) (total_frames : Z)
    (method : string) (intensity : Z) (frame_count total_faces : Z)
    (out : writer) (s : store) : video_state * result (Z * Z) :=
  match frames with
  | [] =>
      (mk_video_state s (cap_with_frames cap []) out, Ok (total_faces, frame_count))
  | decoded :: rest =>
      let cap := cap_with_frames cap rest in
      let frame := length s in
      let s := s ++ [decoded] in
      match (copied ← np_copy (Whole frame); process_image copied method intensity) s with
      | (s, Raise e) => (mk_video_state s cap out, Raise e)
      | (s, Ok (processed_frame, faces_count)) =>
          let total_faces := total_faces + faces_count in
          let out := out_write out (s !!! processed_frame) in
          let frame_count := frame_count + 1 in
          if (frame_count `mod` 10 =? 0) && (total_frames =? 0)
          then (mk_video_state s cap out, Raise ZeroDivisionError)
          else video_loop rest cap total_frames method intensity
                 frame_count total_faces out s
      end
  end.

(** *** process_video (lines 138-176) *)
Definition process_video (cap : capture) (method : string) (intensity : Z)
    (s : store) : video_state * result (Z * Z) :=
  let fps := py_int (cap_get cap CAP_PROP_FPS) in
  let width := py_int (cap_get cap CAP_PROP_FRAME_WIDTH) in
  let height := py_int (cap_get cap CAP_PROP_FRAME_HEIGHT) in
  let total_frames := py_int (cap_get cap CAP_PROP_FRAME_COUNT) in
  let out := VideoWriter "mp4v" fps (width, height) in
  let after_loop :=
    if isOpened cap
    then video_loop (cap_frames cap) cap total_frames method intensity 0 0 out s
    else (mk_video_state s cap out, Ok (0, 0)) in
  match after_loop with
  | (st, Ok (total_faces, frame_count)) =>
      (mk_video_state (vs_store st) (cap_release (vs_cap st)) (out_release (vs_out st)),
       Ok (total_faces, frame_count))
  | (st, Raise e) => (st, Raise e)
  end.

End Pipeline.

(** ** The rate limiter (lines 27-58) *)

(** Times are [datetime] values counted in microseconds, the resolution of
    [datetime] and [timedelta]; [datetime.now()] is an argument of the two
    functions. *)
Definition RATE_LIMIT : Z := 5.
(** [timedelta(days=1)]. *)
Definition RATE_LIMIT_WINDOW : Z := 86400000000.

(** [rate_limit_storage[ip_address]] read on the [defaultdict(list)]: the
    empty list for an address not seen yet. *)
Definition entries (storage : gmap string (list Z)) (ip_address : string) : list Z :=
  default [] (storage !! ip_address).

(** The list comprehension of lines 36-39 and 52-55. *)
Definition recent (now : Z) (timestamps : list Z) : list Z :=
  filter (fun timestamp => now - timestamp < RATE_LIMIT_WINDOW) timestamps.

(** *** check_rate_limit (lines 32-47) *)
Definition check_rate_limit (now : Z) (ip_address : string)
    (storage : gmap string (list Z)) : gmap string (list Z) * bool :=
  let storage := <[ip_address := recent now (entries storage ip_address)]> storage in
  if RATE_LIMIT <=? Z.of_nat (length (entries storage ip_address))
  then (storage, false)
  else (<[ip_address := entries storage ip_address ++ [now]]> storage, true).

Record usage : Type := mk_usage { used : Z; remaining : Z; limit : Z }.

(** *** get_remaining_uses (lines 49-58) *)
Definition get_remaining_uses (now : Z) (ip_address : string)
    (storage : gmap string (list Z)) : gmap string (list Z) * usage :=
  let storage := <[ip_address := recent now (entries storage ip_address)]> storage in
  let used := Z.of_nat (length (entries storage ip_address)) in
  let remaining := Z.max 0 (RATE_LIMIT - used) in
  (storage, {| used := used; remaining := remaining; limit := RATE_LIMIT |}).

(** A run of calls of the two functions, each with its time and address. *)
Inductive limiter_call : Type :=
  | Check (now : Z) (ip_address : string)
  | Query (now : Z) (ip_address : string).

Definition limiter_step (storage : gmap string (list Z)) (c : limiter_call)
    : gmap string (list Z) :=
  match c with
  | Check now ip => fst (check_rate_limit now ip storage)
  | Query now ip => fst (get_remaining_uses now ip storage)
  end.

Definition call_address (c : limiter_call) : string :=
  match c with Check _ ip | Query _ ip => ip end.

(** The answers of [check_rate_limit] to requests of one address at the
    times [nows], one after the other. *)
Fixpoint check_all (ip_address : string) (nows : list Z)
    (storage : gmap string (list Z)) : list bool :=
  match nows with
  | [] => []
  | now :: rest =>
      let '(storage, ok) := check_rate_limit now ip_address storage in
      ok :: check_all ip_address rest storage
  end.

(** No address has more than [RATE_LIMIT] timestamps on record. *)
Definition within_limit (storage : gmap string (list Z)) : Prop :=
  forall ip timestamps, storage !! ip = Some timestamps ->
    Z.of_nat (length timestamps) <= RATE_LIMIT.

(** ** The image and batch endpoints (lines 203-254 and 330-403) *)

(** [cv2.imdecode(np.frombuffer(contents, np.uint8), cv2.IMREAD_COLOR)],
    which returns [None] for bytes that are no image, and
    [cv2.imencode('.jpg', image)], of which the code keeps the buffer. *)
Class Codec : Type := {
  imdecode : list Z -> result (option ndarray);
  imencode : ndarray -> result (list Z)
}.

(** An uploaded file: [file.filename], [file.content_type] (which may be
    [None]) and the bytes [await file.read()] gives. *)
Record UploadFile : Type := mk_upload {
  filename : string;
  content_type : option string;
  contents : list Z
}.

(** What the server holds between requests: the storage of the rate
    limiter and the arrays in memory. *)
Record server : Type := mk_server {
  rate_limit_storage : gmap string (list Z);
  arrays : store
}.

(** How a handler ends: with its response, with an [HTTPException] of
    some status code, or with another exception that nothing catches. *)
Inductive reply (A : Type) : Type :=
  | Return (a : A)
  | HTTPException (status_code : Z)
  | Unhandled (e : exn).
Arguments Return {A} a.
Arguments HTTPException {A} status_code.
Arguments Unhandled {A} e.

(** [HTTPException] is a subclass of [Exception]: raised inside a [try]
    block it is caught by [except Exception] like any other. *)
Definition raise_HTTPException {A} (status_code : string) : M A :=
  raise (OtherException status_code).

(** [None.startswith(...)]. *)
Definition AttributeError : exn := OtherException "AttributeError".

(** The response of the image endpoint: the JPEG bytes and the headers
    (the numbers before [str] is applied). *)
Record image_response : Type := mk_image_response {
  media_type : string;
  body : list Z;
  X_Faces_Detected : Z;
  X_Rate_Limit_Remaining : Z;
  X_Rate_Limit_Used : Z;
  attachment : string
}.

(** One entry of the result list of the batch endpoint. *)
Inductive batch_error : Type :=
  | Not_an_image_file
  | Invalid_image
  | Failed (e : exn).

Inductive batch_result : Type :=
  | Item_error (name : string) (error : batch_error)
  | Item_success (name : string) (faces_detected : Z) (image_data : list Z).


Definition new_array (a : ndarray) : M ref := fun s => (s ++ [a], Ok (length s)).

Section Endpoints.
Context `{V : Vision} `{C : Codec}.

(** Lines 225-237 and 364-380: decode, process, encode.  [None] stands
    for the branch [image is None]. *)
Definition decode_process_encode (file : UploadFile) (method : string)
    (intensity : Z) : M (option (Z * list Z)) :=
  image ← (fun s => (s, imdecode (contents file)));
  match image with
  | None => ret None
  | Some decoded =>
      image ← new_array decoded;
      processed ← process_image image method intensity;
      let '(processed_image, faces_count) := processed in
      buffer ← (fun s => (s, imencode (s !!! processed_image)));
      ret (Some (faces_count, buffer))
  end.

(** *** anonymize_image_endpoint (lines 203-254); [now1] and [now2] are
    the times of the two calls of the rate limiter. *)
Definition anonymize_image_endpoint (now1 now2 : Z) (client_ip : string)
    (file : UploadFile) (method : string) (intensity : Z) (sv : server)
    : server * reply image_response :=
  let '(storage, allowed) := check_rate_limit now1 client_ip (rate_limit_storage sv) in
  if negb allowed then
    let '(storage, usage) := get_remaining_uses now2 client_ip storage in
    (mk_server storage (arrays sv), HTTPException 429)
  else
    match content_type file with
    | None => (mk_server storage (arrays sv), Unhandled AttributeError)
    | Some ctype =>
        if negb (String.prefix "image/" ctype)
        then (mk_server storage (arrays sv), HTTPException 400)
        else
          let body :=
            try_except
              (decoded ← decode_process_encode file method intensity;
               match decoded with
               | None => raise_HTTPException "400"
               | Some (faces_count, buffer) => ret (Return (faces_count, buffer))
               end)
              (fun e => ret (HTTPException 500)) in
          match body (arrays sv) with
          | (s, Ok (Return (faces_count, buffer))) =>
              let '(storage, usage) := get_remaining_uses now2 client_ip storage in
              (mk_server storage s,
               Return {| media_type := "image/jpeg"; body := buffer;
                         X_Faces_Detected := faces_count;
                         X_Rate_Limit_Remaining := remaining usage;
                         X_Rate_Limit_Used := used usage;
                         attachment := "anonymized_" +:+ filename file |})
          | (s, Ok (HTTPException code)) => (mk_server storage s, HTTPException code)
          | (s, Ok (Unhandled e)) => (mk_server storage s, Unhandled e)
          | (s, Raise e) => (mk_server storage s, Unhandled e)
          end
    end.

(** The body of the loop of lines 352-396 for one file. *)
Definition batch_item (file : UploadFile) (method : string) (intensity : Z)
    : M batch_result :=
  try_except
    (match content_type file with
     | None => raise AttributeError
     | Some ctype =>
         if negb (String.prefix "image/" ctype)
         then ret (Item_error (filename file) Not_an_image_file)
         else
           decoded ← decode_process_encode file method intensity;
           match decoded with
           | None => ret (Item_error (filename file) Invalid_image)
           | Some (faces_count, buffer) =>
               ret (Item_success (filename file) faces_count buffer)
           end
     end)
    (fun e => ret (Item_error (filename file) (Failed e))).

Fixpoint batch_items (files : list UploadFile) (method : string) (intensity : Z)
    : M (list batch_result) :=
  match files with
  | [] => ret []
  | file :: rest =>
      r ← batch_item file method intensity;
      results ← batch_items rest method intensity;
      ret (r :: results)
  end.

(** *** anonymize_batch_endpoint (lines 330-403) *)
Definition anonymize_batch_endpoint (now1 now2 : Z) (client_ip : string)
    (files : list UploadFile) (method : string) (intensity : Z) (sv : server)
    : server * reply (list batch_result * usage) :=
  let '(storage, allowed) := check_rate_limit now1 client_ip (rate_limit_storage sv) in
  if negb allowed then
    let '(storage, usage) := get_remaining_uses now2 client_ip storage in
    (mk_server storage (arrays sv), HTTPException 429)
  else if (10 <? length files)%nat then
    (mk_server storage (arrays sv), HTTPException 400)
  else
    match batch_items files method intensity (arrays sv) with
    | (s, Ok results) =>
        let '(storage, usage) := get_remaining_uses now2 client_ip storage in
        (mk_server storage s, Return (results, usage))
    | (s, Raise e) => (mk_server storage s, Unhandled e)
    end.

End Endpoints.

(** ** Vocabulary of the properties *)

Definition recognized (method : string) : bool :=
  String.eqb method "blur" || String.eqb method "pixelate" || String.eqb method "mask".

(** [image[y:y+h, x:x+w] = v] on the contents [a] of the image. *)
Definition assign_region (a : ndarray) (x y w h : Z) (v : ndarray) : ndarray :=
  let rb := slice_bounds (rows a) y (y + h) in
  let cb := slice_bounds (cols a) x (x + w) in
  assign a rb.1 rb.2 cb.1 cb.2 v.

(** The contents of [image[y:y+h, x:x+w]] for an image of contents [a]. *)
Definition region_view (a : ndarray) (x y w h : Z) : ndarray :=
  let rb := slice_bounds (rows a) y (y + h) in
  let cb := slice_bounds (cols a) x (x + w) in
  view_of a rb.1 rb.2 cb.1 cb.2.

Definition region_of (s : store) (image : ref) (x y w h : Z) : ndarray :=
  region_view (s !!! image) x y w h.

(** A region [(x, y, w, h)] that lies fully inside a frame. *)
Definition inside (frame : ndarray) (x y w h : Z) : Prop :=
  0 <= x /\ 0 <= y /\ 0 < w /\ 0 < h /\
  x + w <= Z.of_nat (cols frame) /\ y + h <= Z.of_nat (rows frame).

(** The invariant of a face region of a frame. *)
Definition region_ok (frame : ndarray) (r : region) : Prop :=
  let '(x, y, w, h) := r in inside frame x y w h.

(** A ['facial_area'] dict that has the four coordinates, of a region
    inside the frame. *)
Definition area_inside (frame : ndarray) (area : gmap string Z) : Prop :=
  exists x y w h,
    area !! "x" = Some x /\ area !! "y" = Some y /\
    area !! "w" = Some w /\ area !! "h" = Some h /\ inside frame x y w h.

Definition detection_inside (frame : ndarray) (face : face_obj) : Prop :=
  forall area, facial_area face = Some area -> area <> ∅ -> area_inside frame area.

(** Methods under which [anonymize_face] raises on no region: the mask and
    the unrecognized ones. *)
Definition quiet (method : string) : Prop :=
  method = "mask" \/ recognized method = false.

(** The number of frames taken from the capture between two states. *)
Definition frames_read (before after : capture) : Z :=
  Z.of_nat (length (cap_frames before)) - Z.of_nat (length (cap_frames after)).

(** What a step on the frame [image] may do to the store, from [s] to [s']:
    add objects, and write inside the frame; the frame keeps its shape and
    every other object is left as it was. *)
Definition frame_kept (image : ref) (s s' : store) : Prop :=
  (length s <= length s')%nat /\
  shape (s' !!! image) = shape (s !!! image) /\
  forall r, (r < length s)%nat -> r <> image -> s' !! r = s !! r.

(** Computations that only add objects to the store. *)
Definition allocates {A} (m : M A) : Prop :=
  forall (s s1 : store) r, m s = (s1, r) -> exists extra, s1 = s ++ extra.

(** Every object of [s] is in [s'] under its reference, as it was. *)
Definition store_kept (s s' : store) : Prop :=
  forall r a, s !! r = Some a -> s' !! r = Some a.

(** The pixels of the frame that [image[y:y+h, x:x+w]] does not select. *)
Definition outside_slice (a : ndarray) (x y w h : Z) (i j : nat) : Prop :=
  let rb := slice_bounds (rows a) y (y + h) in
  let cb := slice_bounds (cols a) x (x + w) in
  in_box rb.1 rb.2 cb.1 cb.2 i j = false.



(** Whether the pixel at row [i] and column [j] lies in one of the
    regions. *)
Definition covered (regions : list region) (i j : nat) : bool :=
  existsb (fun '(x, y, w, h) =>
             (y <=? Z.of_nat i) && (Z.of_nat i <? y + h) &&
             (x <=? Z.of_nat j) && (Z.of_nat j <? x + w)) regions.

(** Regions with no negative coordinate or size. *)
Definition region_nonneg (r : region) : Prop :=
  let '(x, y, w, h) := r in 0 <= x /\ 0 <= y /\ 0 <= w /\ 0 <= h.

(** The region read from a facial area: [facial_area.get(k, 0)] for the
    four keys, whatever other keys the dict has. *)
Definition area_region (area : gmap string Z) : region :=
  (default 0 (area !! "x"), default 0 (area !! "y"),
   default 0 (area !! "w"), default 0 (area !! "h")).

(** The regions a list of detections reports: the facial areas that are
    there and not empty, in the order of the detections, each read as a
    region. *)
Definition reported_regions (faces : list face_obj) : list region :=
  area_region <$> filter (fun area => area <> ∅) (omap facial_area faces).

(** Frames through the loop of [process_video], from the store [s]:
    [cap.read()] puts the decoded frame in the store, [frame.copy()] puts a
    copy after it, [process_image] runs on the copy, and the frame written
    is what the reference it returns holds then.  [frames_processed s frames
    written total s'] relates the frames read to the frames written, the
    sum of the face counts and the store at the end. *)
Inductive frames_processed `{V : Vision} (method : string) (intensity : Z)
    : store -> list ndarray -> list ndarray -> Z -> store -> Prop :=
  | frames_processed_nil s : frames_processed method intensity s [] [] 0 s
  | frames_processed_cons s decoded rest s1 processed_frame faces_count
      written total s2 :
      process_image (length (s ++ [decoded])) method intensity
        ((s ++ [decoded]) ++ [decoded]) = (s1, Ok (processed_frame, faces_count)) ->
      frames_processed method intensity s1 rest written total s2 ->
      frames_processed method intensity s (decoded :: rest)
        (s1 !!! processed_frame :: written) (faces_count + total) s2.

(** ** A concrete library, for running the pipeline on examples *)

(** Resizing by sampling the source at the scaled position. *)
Definition sample_resize (interp : interpolation) (src : ndarray) (r c : nat)
    : nat -> nat -> nat -> Z :=
  fun i j k => px src (i * rows src / r)%nat (j * cols src / c)%nat k.

(** A blur that checks its kernel (positive and odd) and averages
    horizontally adjacent pixels. *)
Definition pair_blur (src : ndarray) (ksize : Z * Z) (sigma : Z) : result ndarray :=
  if is_empty src || negb (Z.odd ksize.1) || negb (Z.odd ksize.2)
     || (ksize.1 <=? 0) || (ksize.2 <=? 0)
  then Raise cv2_error
  else Ok {| rows := rows src; cols := cols src; chans := chans src;
             px := fun i j k => (px src i j k + px src i (Nat.min (j + 1) (cols src - 1)) k) / 2 |}.

(** Grayscale as one channel holding the mean of the source's channels 0-2. *)
Definition mean_gray (src : ndarray) : result ndarray :=
  if is_empty src then Raise cv2_error
  else Ok {| rows := rows src; cols := cols src; chans := 1;
             px := fun i j _ => (px src i j 0 + px src i j 1 + px src i j 2) / 3 |}.

(** The library whose detectors answer [deepface] and [cascade] on every
    frame. *)
Definition scripted_vision (deepface : result (list face_obj))
    (cascade : result (list region)) : Vision :=
  {| extract_faces := fun _ _ _ _ => deepface;
     cvtColor_BGR2GRAY := mean_gray;
     detectMultiScale := fun _ _ _ => cascade;
     GaussianBlur := pair_blur;
     resize_interp := sample_resize |}.

(** A 640x480 frame of three channels with a gradient in it. *)
Definition frame_640x480 : ndarray :=
  {| rows := 480; cols := 640; chans := 3;
     px := fun i j c => Z.of_nat ((i + 2 * j + 7 * c + 1) mod 256) |}.

Definition face_at (x y w h : Z) : face_obj :=
  mk_face (Some (<["x" := x]> (<["y" := y]> (<["w" := w]> (<["h" := h]> ∅))))).

(** DeepFace reports one face of 40 x 40 pixels at (100, 50). *)
Definition V_face : Vision := scripted_vision (Ok [face_at 100 50 40 40]) (Ok []).
(** No detector finds a face. *)
Definition V_none : Vision := scripted_vision (Ok []) (Ok []).
(** DeepFace fails to load its model and the cascade search fails. *)
Definition V_down : Vision :=
  scripted_vision (Raise (OtherException "model")) (Raise cv2_error).
(** DeepFace reports a face box that crosses the right and bottom edges. *)
Definition V_edge : Vision := scripted_vision (Ok [face_at 620 460 40 40]) (Ok []).

(** A one-frame clip at the NTSC rate of 30000/1001 frames per second, and
    the same clip at 30 frames per second. *)
Definition clip_ntsc : capture :=
  mk_capture true (30000 # 1001) 640 480 1 [frame_640x480] false.
Definition clip_30 : capture :=
  mk_capture true (30 # 1) 640 480 1 [frame_640x480] false.

(** The detection DeepFace reports for a region: a facial area with the
    four coordinates. *)
Definition detection_of (r : region) : face_obj :=
  let '(x, y, w, h) := r in face_at x y w h.

(** DeepFace reports two faces that overlap. *)
Definition V_pair : Vision :=
  scripted_vision (Ok [face_at 100 50 40 40; face_at 120 60 40 40]) (Ok []).

(** A codec that takes bytes starting with 255 for the JPEG of
    [frame_640x480], fails on no bytes, and decodes nothing else. *)
Definition scripted_codec : Codec :=
  {| imdecode := fun bytes =>
       match bytes with
       | [] => Raise cv2_error
       | b :: _ => if b =? 255 then Ok (Some frame_640x480) else Ok None
       end;
     imencode := fun a => if is_empty a then Raise cv2_error else Ok [255; 216; 255] |}.

Definition photo : UploadFile := mk_upload "photo.jpg" (Some "image/jpeg") [255; 216; 255; 224].
Definition notes : UploadFile := mk_upload "notes.txt" (Some "text/plain") [104; 105].
Definition broken : UploadFile := mk_upload "broken.jpg" (Some "image/jpeg") [0; 1; 2].

(** A server that has seen nothing, and one whose address 203.0.113.7 has
    made five requests in the first five seconds. *)
Definition idle_server : server := mk_server ∅ [].
Definition busy_server : server :=
  mk_server {[ "203.0.113.7" := [0; 1000000; 2000000; 3000000; 4000000] ]} [].

(** Ten frames in a container that reports a frame count of 0, and a file
    that could not be opened. *)
Definition clip_unknown_length : capture :=
  mk_capture true (30 # 1) 640 480 0 (replicate 10 frame_640x480) false.
Definition clip_unreadable : capture :=
  mk_capture false (0 # 1) 0 0 0 [] false.

(** * Properties *)

(** ** Running the monad *)

Lemma bind_ok {A B} (m : M A) (f : A -> M B) (s s' : store) a :
  m s = (s', Ok a) -> bind m f s = f a s'.
Proof. intros Hm. unfold bind. rewrite Hm. reflexivity. Qed.

(** ** Slices and assignments *)

Lemma slice_bounds_ordered n lo hi :
  ((slice_bounds n lo hi).1 <= (slice_bounds n lo hi).2 <= n)%nat.
Proof.
  unfold slice_bounds, slice_index. simpl.
  destruct (lo <? 0) eqn:Hlo, (hi <? 0) eqn:Hhi; lia.
Qed.

Lemma slice_bounds_inside n lo len :
  0 <= lo -> 0 <= len -> lo + len <= Z.of_nat n ->
  slice_bounds n lo (lo + len) = (Z.to_nat lo, Z.to_nat (lo + len)).
Proof.
  intros Hlo Hlen Hn. unfold slice_bounds, slice_index.
  destruct (lo <? 0) eqn:E1; [lia|].
  destruct (lo + len <? 0) eqn:E2; [lia|].
  f_equal; lia.
Qed.

Lemma in_box_true r0 r1 c0 c1 i j :
  in_box r0 r1 c0 c1 i j = true <-> (r0 <= i < r1 /\ c0 <= j < c1)%nat.
Proof.
  unfold in_box. rewrite !andb_true_iff, !Nat.leb_le, !Nat.ltb_lt. lia.
Qed.

Lemma broadcast_dim_refl n : broadcast_dim n n = true.
Proof. unfold broadcast_dim. rewrite Nat.eqb_refl. reflexivity. Qed.

(** Writing a view of an array back to where it was taken changes no value
    inside the shape. *)
Lemma assign_own_view a r0 r1 c0 c1 i j c :
  (c < chans a)%nat ->
  px (assign a r0 r1 c0 c1 (view_of a r0 r1 c0 c1)) i j c = px a i j c.
Proof.
  intros Hc. simpl. destruct (in_box r0 r1 c0 c1 i j) eqn:Hbox; [|reflexivity].
  apply in_box_true in Hbox. unfold bidx.
  assert (Hi : (r0 + (if (r1 - r0 =? 1)%nat then 0 else i - r0) = i)%nat).
  { destruct (r1 - r0 =? 1)%nat eqn:E; [apply Nat.eqb_eq in E|]; lia. }
  assert (Hj : (c0 + (if (c1 - c0 =? 1)%nat then 0 else j - c0) = j)%nat).
  { destruct (c1 - c0 =? 1)%nat eqn:E; [apply Nat.eqb_eq in E|]; lia. }
  assert (Hk : (if (chans a =? 1)%nat then 0%nat else c) = c).
  { destruct (chans a =? 1)%nat eqn:E; [apply Nat.eqb_eq in E|]; lia. }
  rewrite Hi, Hj, Hk. reflexivity.
Qed.

(** The array a reference names after [image] was overwritten. *)
Lemma store_insert_lookup (s : store) (image r : ref) (a : ndarray) :
  (<[image := a]> s) !!! r =
    if decide (image = r /\ (image < length s)%nat) then a else s !!! r.
Proof.
  destruct (decide (image = r /\ (image < length s)%nat)) as [[-> Hlt] | Hno].
  - apply list_lookup_total_insert_eq. exact Hlt.
  - destruct (decide (image = r)) as [-> | Hne].
    + rewrite list_insert_ge; [reflexivity | lia].
    + apply list_lookup_total_insert_ne. exact Hne.
Qed.

Section Properties.
Context `{V : Vision}.

(** ** Kernel size of the blur *)

Lemma kernel_size_cases intensity :
  (Z.odd intensity = true /\ kernel_size intensity = intensity) \/
  (Z.even intensity = true /\ kernel_size intensity = intensity + 1).
Proof.
  unfold kernel_size. rewrite Zmod_odd.
  destruct (Z.odd intensity) eqn:Hodd; simpl.
  - left. split; reflexivity.
  - right. split; [|reflexivity]. rewrite <- Z.negb_odd, Hodd. reflexivity.
Qed.

(** C6.  For every positive intensity the kernel size the blur branch
    computes is odd: an odd intensity is used as it is, an even one is
    incremented by 1; and the blur branch of [anonymize_face] passes exactly
    this size, for both dimensions of the kernel, to [cv2.GaussianBlur]. *)
Theorem blur_kernel_size_odd (intensity : Z) (Hpos : 0 < intensity) :
  Z.odd (kernel_size intensity) = true /\
  (Z.odd intensity = true -> kernel_size intensity = intensity) /\
  (Z.even intensity = true -> kernel_size intensity = intensity + 1) /\
  forall image x y w h,
    anonymize_face image x y w h "blur" intensity =
      (face_region ← getitem image (y, y + h) (x, x + w);
       anonymized ← cv2_GaussianBlur face_region
                      (kernel_size intensity, kernel_size intensity) 0;
       setitem image (y, y + h) (x, x + w) anonymized;;
       ret image).
Proof.
  destruct (kernel_size_cases intensity) as [[Hodd Hk] | [Heven Hk]].
  - repeat split.
    + rewrite Hk. exact Hodd.
    + intros _. exact Hk.
    + intros Heven. rewrite <- Z.negb_odd, Hodd in Heven. discriminate.
  - repeat split.
    + rewrite Hk. change (intensity + 1) with (Z.succ intensity). rewrite Z.odd_succ. exact Heven.
    + intros Hodd. rewrite <- Z.negb_odd, Hodd in Heven. discriminate.
    + intros _. exact Hk.
Qed.

(** ** The face locator *)

Lemma region_map_id (faces : list region) :
  (fun '(x, y, w, h) => (x, y, w, h)) <$> faces = faces.
Proof.
  induction faces as [|[[[x y] w] h] faces IH]; simpl; [reflexivity|].
  f_equal. exact IH.
Qed.

Lemma value_of_fresh (s : store) (a : ndarray) :
  value_of (s ++ [a]) (Whole (length s)) = a.
Proof.
  simpl. rewrite lookup_total_app_r by lia. rewrite Nat.sub_diag. reflexivity.
Qed.

(** What [detect_faces_opencv] does, by the outcome of the two library
    calls. *)
Lemma detect_faces_opencv_run image_array (s : store) :
  detect_faces_opencv image_array s =
    match cvtColor_BGR2GRAY (s !!! image_array) with
    | Raise _ => (s, Ok [])
    | Ok gray =>
        (s ++ [gray],
         match detectMultiScale gray (13 # 10)%Q 5 with
         | Ok faces => Ok faces
         | Raise _ => Ok []
         end)
    end.
Proof.
  unfold detect_faces_opencv, try_except, bind, cv2_cvtColor, call_new, alloc, ret.
  change (value_of s (Whole image_array)) with (s !!! image_array).
  destruct (cvtColor_BGR2GRAY (s !!! image_array)) as [gray|e]; [|reflexivity].
  rewrite value_of_fresh.
  destruct (detectMultiScale gray (13 # 10)%Q 5) as [faces|e]; [|reflexivity].
  rewrite region_map_id. reflexivity.
Qed.

Lemma detect_faces_deepface_run image_array (s : store) :
  detect_faces_deepface image_array s =
    match extract_faces (s !!! image_array) "retinaface" false false with
    | Ok faces => (s, Ok (omap face_location faces))
    | Raise _ => detect_faces_opencv image_array s
    end.
Proof.
  unfold detect_faces_deepface, try_except, bind, ret.
  destruct (extract_faces (s !!! image_array) "retinaface" false false);
    reflexivity.
Qed.

Lemma detect_faces_opencv_ok image_array (s : store) :
  exists regions, snd (detect_faces_opencv image_array s) = Ok regions.
Proof.
  rewrite detect_faces_opencv_run.
  destruct (cvtColor_BGR2GRAY (s !!! image_array)) as [gray|e]; simpl; [|eauto].
  destruct (detectMultiScale gray (13 # 10)%Q 5); eauto.
Qed.

Lemma detect_faces_deepface_ok image_array (s : store) :
  exists regions, snd (detect_faces_deepface image_array s) = Ok regions.
Proof.
  rewrite detect_faces_deepface_run.
  destruct (extract_faces (s !!! image_array) "retinaface" false false);
    [simpl; eauto | apply detect_faces_opencv_ok].
Qed.

(** C3.  The locator never raises: on every frame it returns a list of
    regions.  When the DeepFace call raises, whatever the exception, the
    result is that of the cascade detector; and when the cascade detector
    fails too, in the colour conversion or in the cascade search, the result
    is the empty list. *)
Theorem locator_never_raises image_array (s : store) :
  (exists regions, snd (detect_faces_deepface image_array s) = Ok regions) /\
  (exists regions, snd (detect_faces_opencv image_array s) = Ok regions) /\
  (forall e, extract_faces (s !!! image_array) "retinaface" false false = Raise e ->
     detect_faces_deepface image_array s = detect_faces_opencv image_array s) /\
  (forall e, cvtColor_BGR2GRAY (s !!! image_array) = Raise e ->
     snd (detect_faces_opencv image_array s) = Ok []) /\
  (forall gray e, cvtColor_BGR2GRAY (s !!! image_array) = Ok gray ->
     detectMultiScale gray (13 # 10)%Q 5 = Raise e ->
     snd (detect_faces_opencv image_array s) = Ok []).
Proof.
  split; [|split; [|split; [|split]]].
  - apply detect_faces_deepface_ok.
  - apply detect_faces_opencv_ok.
  - intros e He. rewrite detect_faces_deepface_run, He. reflexivity.
  - intros e He. rewrite detect_faces_opencv_run, He. reflexivity.
  - intros gray e Hg He. rewrite detect_faces_opencv_run, Hg, He. reflexivity.
Qed.

(** The store after detection is the store before it, followed by the
    grayscale array when the fallback allocated one. *)
Lemma detect_faces_opencv_store image_array (s : store) :
  fst (detect_faces_opencv image_array s) =
    match cvtColor_BGR2GRAY (s !!! image_array) with
    | Ok gray => s ++ [gray]
    | Raise _ => s
    end.
Proof.
  rewrite detect_faces_opencv_run.
  destruct (cvtColor_BGR2GRAY (s !!! image_array)); reflexivity.
Qed.

Lemma detect_faces_deepface_store image_array (s : store) :
  fst (detect_faces_deepface image_array s) = s \/
  exists gray, fst (detect_faces_deepface image_array s) = s ++ [gray].
Proof.
  rewrite detect_faces_deepface_run.
  destruct (extract_faces (s !!! image_array) "retinaface" false false);
    [left; reflexivity|].
  rewrite detect_faces_opencv_store.
  destruct (cvtColor_BGR2GRAY (s !!! image_array)); eauto.
Qed.

Lemma detect_faces_opencv_lookup image_array (s : store) frame :
  s !! image_array = Some frame ->
  fst (detect_faces_opencv image_array s) !! image_array = Some frame.
Proof.
  intros Hframe. rewrite detect_faces_opencv_store.
  destruct (cvtColor_BGR2GRAY (s !!! image_array)); [|exact Hframe].
  apply lookup_app_l_Some. exact Hframe.
Qed.

Lemma detect_faces_deepface_lookup image_array (s : store) frame :
  s !! image_array = Some frame ->
  fst (detect_faces_deepface image_array s) !! image_array = Some frame.
Proof.
  intros Hframe.
  destruct (detect_faces_deepface_store image_array s) as [-> | [gray ->]];
    [exact Hframe | apply lookup_app_l_Some; exact Hframe].
Qed.

(** C10.  Detection does not touch the frame: after either detector
    returns, the reference of the input frame names the same array, every
    pixel included.  The grayscale image of the fallback is a new object,
    appended to the store. *)
Theorem detection_leaves_frame_unchanged image_array (s : store) (frame : ndarray)
    (Hframe : s !! image_array = Some frame) :
  fst (detect_faces_deepface image_array s) !! image_array = Some frame /\
  fst (detect_faces_opencv image_array s) !! image_array = Some frame /\
  (forall i j c,
     px (fst (detect_faces_deepface image_array s) !!! image_array) i j c = px frame i j c /\
     px (fst (detect_faces_opencv image_array s) !!! image_array) i j c = px frame i j c) /\
  (forall gray, cvtColor_BGR2GRAY frame = Ok gray ->
     fst (detect_faces_opencv image_array s) = s ++ [gray] /\
     length s <> image_array).
Proof.
  assert (Hlt : (image_array < length s)%nat) by (eapply lookup_lt_Some; eauto).
  pose proof (detect_faces_opencv_lookup _ _ _ Hframe) as Hcv.
  pose proof (detect_faces_deepface_lookup _ _ _ Hframe) as Hdf.
  split; [exact Hdf|]. split; [exact Hcv|]. split.
  - intros i j c.
    rewrite (list_lookup_total_correct _ _ _ Hdf), (list_lookup_total_correct _ _ _ Hcv).
    split; reflexivity.
  - intros gray Hgray. rewrite detect_faces_opencv_store.
    rewrite (list_lookup_total_correct _ _ _ Hframe), Hgray. split; [reflexivity | lia].
Qed.

(** ** The region anonymizer *)

Lemma getitem_region_of image x y w h (s : store) :
  exists v, getitem image (y, y + h) (x, x + w) s = (s, Ok v) /\
            value_of s v = region_of s image x y w h.
Proof. eexists. split; reflexivity. Qed.

Lemma anonymize_face_unrecognized_run image x y w h method intensity (s : store) :
  recognized method = false ->
  anonymize_face image x y w h method intensity s =
    (<[image := assign_region (s !!! image) x y w h (region_of s image x y w h)]> s,
     Ok image).
Proof.
  unfold recognized. intros Hm.
  apply orb_false_elim in Hm as [Hm Hmask]. apply orb_false_elim in Hm as [Hblur Hpix].
  unfold anonymize_face. rewrite Hblur, Hpix, Hmask.
  unfold bind, getitem, setitem, ret. cbn [fst snd value_of view_of rows cols chans].
  rewrite !broadcast_dim_refl. reflexivity.
Qed.

(** C9.  With a method that is none of blur, pixelate and mask,
    [anonymize_face] returns the frame it was given, for every region and
    intensity: no exception, no new object, every other array untouched, and
    the frame keeps its shape and every pixel inside it. *)
Theorem unrecognized_method_is_noop image x y w h method intensity (s : store)
    (Hblur : method <> "blur") (Hpixelate : method <> "pixelate")
    (Hmask : method <> "mask") :
  exists s',
    anonymize_face image x y w h method intensity s = (s', Ok image) /\
    length s' = length s /\
    (forall r, r <> image -> s' !! r = s !! r) /\
    shape (s' !!! image) = shape (s !!! image) /\
    forall i j c, (i < rows (s !!! image))%nat -> (j < cols (s !!! image))%nat ->
      (c < chans (s !!! image))%nat ->
      px (s' !!! image) i j c = px (s !!! image) i j c.
Proof.
  assert (Hm : recognized method = false).
  { unfold recognized. apply String.eqb_neq in Hblur, Hpixelate, Hmask.
    rewrite Hblur, Hpixelate, Hmask. reflexivity. }
  rewrite (anonymize_face_unrecognized_run _ _ _ _ _ _ _ _ Hm).
  eexists. split; [reflexivity|]. split; [apply length_insert|].
  split; [intros r Hr; apply list_lookup_insert_ne; congruence|].
  rewrite store_insert_lookup.
  destruct (decide (image = image /\ (image < length s)%nat)); [|split; reflexivity].
  split; [reflexivity|]. intros i j c _ _ Hc. apply assign_own_view. exact Hc.
Qed.

Lemma anonymize_face_mask_run image x y w h intensity (s : store) :
  (image < length s)%nat ->
  anonymize_face image x y w h "mask" intensity s =
    let a := s !!! image in
    let face := region_view a x y w h in
    let black := zeros (rows face) (cols face) (chans face) in
    (<[image := assign_region a x y w h black]> (s ++ [black]), Ok image).
Proof.
  intros Hlt. unfold anonymize_face.
  change (String.eqb "mask" "blur") with false.
  change (String.eqb "mask" "pixelate") with false.
  change (String.eqb "mask" "mask") with true.
  unfold bind, getitem, np_zeros_like, alloc, setitem, ret.
  cbn [fst snd value_of view_of rows cols chans].
  rewrite !(lookup_total_app_l s _ image) by exact Hlt.
  rewrite lookup_total_app_r by lia. rewrite Nat.sub_diag.
  cbn [lookup_total list_lookup_total rows cols chans].
  rewrite !broadcast_dim_refl. reflexivity.
Qed.

Lemma inside_rows frame x y w h :
  inside frame x y w h ->
  slice_bounds (rows frame) y (y + h) = (Z.to_nat y, Z.to_nat (y + h)).
Proof. intros (Hx & Hy & Hw & Hh & Hr & Hb). apply slice_bounds_inside; lia. Qed.

Lemma inside_cols frame x y w h :
  inside frame x y w h ->
  slice_bounds (cols frame) x (x + w) = (Z.to_nat x, Z.to_nat (x + w)).
Proof. intros (Hx & Hy & Hw & Hh & Hr & Hb). apply slice_bounds_inside; lia. Qed.

(** Inside the frame, the slice is the box [y <= i < y+h], [x <= j < x+w]. *)
Lemma assign_region_px frame x y w h v i j c :
  inside frame x y w h ->
  px (assign_region frame x y w h v) i j c =
    if decide (y <= Z.of_nat i < y + h /\ x <= Z.of_nat j < x + w)
    then px v (bidx (rows v) (i - Z.to_nat y)) (bidx (cols v) (j - Z.to_nat x))
              (bidx (chans v) c)
    else px frame i j c.
Proof.
  intros Hin. unfold assign_region.
  rewrite (inside_rows _ _ _ _ _ Hin), (inside_cols _ _ _ _ _ Hin).
  destruct Hin as (Hx & Hy & Hw & Hh & Hr & Hb). cbn [fst snd assign px].
  destruct (in_box _ _ _ _ i j) eqn:Hbox.
  - apply in_box_true in Hbox. rewrite decide_True by lia. reflexivity.
  - rewrite decide_False; [reflexivity|]. intros Hyes.
    apply not_true_iff_false in Hbox. apply Hbox. apply in_box_true. lia.
Qed.

Lemma region_view_shape frame x y w h :
  inside frame x y w h ->
  shape (region_view frame x y w h) = (Z.to_nat h, Z.to_nat w, chans frame).
Proof.
  intros Hin. unfold region_view, shape.
  rewrite (inside_rows _ _ _ _ _ Hin), (inside_cols _ _ _ _ _ Hin).
  destruct Hin as (Hx & Hy & Hw & Hh & Hr & Hb). cbn [fst snd view_of rows cols chans].
  repeat f_equal; lia.
Qed.

Lemma region_view_rows_cols frame x y w h :
  inside frame x y w h ->
  rows (region_view frame x y w h) = Z.to_nat h /\
  cols (region_view frame x y w h) = Z.to_nat w.
Proof.
  intros Hin. pose proof (region_view_shape _ _ _ _ _ Hin) as Hshape.
  split; [exact (f_equal (fun p => p.1.1) Hshape) | exact (f_equal (fun p => p.1.2) Hshape)].
Qed.

Lemma region_view_px frame x y w h i j c :
  inside frame x y w h ->
  px (region_view frame x y w h) i j c =
    px frame (Z.to_nat y + i)%nat (Z.to_nat x + j)%nat c.
Proof.
  intros Hin. unfold region_view.
  rewrite (inside_rows _ _ _ _ _ Hin), (inside_cols _ _ _ _ _ Hin). reflexivity.
Qed.

(** C7.  For a frame in the store and a region fully inside it, the mask
    method, with any intensity, returns the frame with every pixel of the
    region at zero on every channel, and the region has the shape it had
    ([h] rows, [w] columns, the frame's channels); the frame keeps its shape
    and the pixels outside the region. *)
Theorem mask_blackens_region image x y w h intensity (s : store) (frame : ndarray)
    (Hframe : s !! image = Some frame) (Hin : inside frame x y w h) :
  exists s',
    anonymize_face image x y w h "mask" intensity s = (s', Ok image) /\
    (forall i j c, (i < rows (region_of s' image x y w h))%nat ->
       (j < cols (region_of s' image x y w h))%nat ->
       px (region_of s' image x y w h) i j c = 0) /\
    (forall i j c, y <= Z.of_nat i < y + h -> x <= Z.of_nat j < x + w ->
       px (s' !!! image) i j c = 0) /\
    shape (region_of s' image x y w h) = shape (region_of s image x y w h) /\
    shape (region_of s' image x y w h) = (Z.to_nat h, Z.to_nat w, chans frame) /\
    shape (s' !!! image) = shape frame /\
    (forall i j c, ~ (y <= Z.of_nat i < y + h /\ x <= Z.of_nat j < x + w) ->
       px (s' !!! image) i j c = px frame i j c).
Proof.
  assert (Hlt : (image < length s)%nat) by (eapply lookup_lt_Some; eauto).
  assert (Hget : s !!! image = frame) by (apply list_lookup_total_correct; exact Hframe).
  rewrite (anonymize_face_mask_run _ _ _ _ _ _ _ Hlt). cbv zeta. rewrite Hget.
  set (black := zeros _ _ _).
  eexists. split; [reflexivity|].
  assert (Hnew : (<[image := assign_region frame x y w h black]> (s ++ [black]))
                   !!! image = assign_region frame x y w h black).
  { apply list_lookup_total_insert_eq. rewrite length_app. lia. }
  assert (Hin' : inside (assign_region frame x y w h black) x y w h) by exact Hin.
  unfold region_of. rewrite Hnew, Hget.
  rewrite !region_view_shape by assumption.
  split; [|split; [|split; [|split; [|split]]]]; try reflexivity.
  - intros i j c Hi Hj. rewrite region_view_px by exact Hin'.
    rewrite assign_region_px by exact Hin.
    destruct (region_view_rows_cols _ _ _ _ _ Hin') as [Hrows Hcols].
    rewrite Hrows in Hi. rewrite Hcols in Hj.
    destruct Hin as (Hx & Hy & Hw & Hh & Hr & Hb).
    rewrite decide_True by lia. reflexivity.
  - intros i j c Hi Hj. rewrite assign_region_px by exact Hin.
    rewrite decide_True by lia. reflexivity.
  - intros i j c Hout. rewrite assign_region_px by exact Hin.
    rewrite decide_False by exact Hout. reflexivity.
Qed.

(** The pixelate branch on a region inside the frame, when the intensity
    exceeds the width or the height of the region: the first [cv2.resize] is
    asked for a size with a zero in it and raises. *)
Lemma pixelate_raises_on_small_region image x y w h intensity (s : store) frame :
  s !! image = Some frame -> inside frame x y w h ->
  w < intensity \/ h < intensity ->
  anonymize_face image x y w h "pixelate" intensity s = (s, Raise cv2_error).
Proof.
  intros Hframe (Hx & Hy & Hw & Hh & Hr & Hb) Hbig.
  assert (Hne : (intensity =? 0) = false) by (apply Z.eqb_neq; lia).
  unfold anonymize_face.
  change (String.eqb "pixelate" "blur") with false.
  change (String.eqb "pixelate" "pixelate") with true.
  unfold bind, getitem, floordiv, cv2_resize, raise, ret. rewrite Hne.
  cbn [fst snd]. cbv zeta.
  assert (Hzero : (w / intensity <=? 0) || (h / intensity <=? 0) = true).
  { destruct Hbig as [Hbig | Hbig].
    - rewrite (Z.div_small w intensity) by lia. reflexivity.
    - rewrite (Z.div_small h intensity) by lia. apply orb_true_r. }
  rewrite <- orb_assoc, Hzero, orb_true_r. reflexivity.
Qed.

Lemma cv2_resize_ok v dw dh interp (s : store) :
  is_empty (value_of s v) = false -> 0 < dw -> 0 < dh ->
  cv2_resize v (dw, dh) interp s =
    (s ++ [resized interp (value_of s v) dw dh], Ok (Whole (length s))).
Proof.
  intros Hsrc Hw Hh. unfold cv2_resize. cbn [fst snd]. rewrite Hsrc.
  apply Z.leb_gt in Hw. apply Z.leb_gt in Hh. rewrite Hw, Hh. reflexivity.
Qed.

Lemma is_empty_false a :
  (0 < rows a)%nat -> (0 < cols a)%nat -> (0 < chans a)%nat -> is_empty a = false.
Proof.
  intros Hr Hc Hk. unfold is_empty.
  destruct (rows a), (cols a), (chans a); simpl; try lia; reflexivity.
Qed.

(** The pixelate branch with an intensity that fits the region: the frame
    comes back, with its shape, and the region holds the enlarged small
    image. *)
Lemma pixelate_ok_when_intensity_fits image x y w h intensity (s : store) frame :
  s !! image = Some frame -> inside frame x y w h -> (0 < chans frame)%nat ->
  0 < intensity <= w -> intensity <= h ->
  exists s', anonymize_face image x y w h "pixelate" intensity s = (s', Ok image) /\
    shape (s' !!! image) = shape frame /\
    shape (region_of s' image x y w h) = (Z.to_nat h, Z.to_nat w, chans frame).
Proof.
  intros Hframe Hin Hk Hw Hh.
  assert (Hlt : (image < length s)%nat) by (eapply lookup_lt_Some; eauto).
  assert (Hget : s !!! image = frame) by (apply list_lookup_total_correct; exact Hframe).
  destruct (region_view_rows_cols _ _ _ _ _ Hin) as [Hrows Hcols].
  pose proof Hin as (Hx & Hy & Hw0 & Hh0 & Hr & Hb).
  assert (Hdw : 0 < w / intensity) by (apply Z.div_str_pos; lia).
  assert (Hdh : 0 < h / intensity) by (apply Z.div_str_pos; lia).
  assert (Hne : (intensity =? 0) = false) by (apply Z.eqb_neq; lia).
  destruct (getitem_region_of image x y w h s) as (v & Hv & Hval).
  unfold region_of in Hval. rewrite Hget in Hval.
  set (small := resized INTER_LINEAR (region_view frame x y w h)
                  (w / intensity) (h / intensity)).
  set (big := resized INTER_NEAREST small w h).
  assert (Hsmall : cv2_resize v (w / intensity, h / intensity) INTER_LINEAR s
                   = (s ++ [small], Ok (Whole (length s)))).
  { assert (Hfull : is_empty (value_of s v) = false).
    { rewrite Hval. apply is_empty_false; [rewrite Hrows | rewrite Hcols | exact Hk]; lia. }
    rewrite (cv2_resize_ok _ _ _ _ _ Hfull Hdw Hdh), Hval. reflexivity. }
  assert (Hbig : cv2_resize (Whole (length s)) (w, h) INTER_NEAREST (s ++ [small])
                 = ((s ++ [small]) ++ [big], Ok (Whole (length (s ++ [small]))))).
  { assert (Hfull : is_empty (value_of (s ++ [small]) (Whole (length s))) = false).
    { rewrite value_of_fresh. apply is_empty_false; simpl; lia. }
    rewrite (cv2_resize_ok _ _ _ _ _ Hfull Hw0 Hh0), value_of_fresh. reflexivity. }
  assert (Hbranch :
    (dw ← floordiv w intensity; dh ← floordiv h intensity;
     small_face ← cv2_resize v (dw, dh) INTER_LINEAR;
     cv2_resize small_face (w, h) INTER_NEAREST) s
    = ((s ++ [small]) ++ [big], Ok (Whole (length (s ++ [small]))))).
  { unfold floordiv. rewrite Hne.
    rewrite (bind_ok _ _ s s (w / intensity)) by reflexivity.
    rewrite (bind_ok _ _ s s (h / intensity)) by reflexivity.
    rewrite (bind_ok _ _ _ _ _ Hsmall). exact Hbig. }
  assert (Hset : setitem image (y, y + h) (x, x + w) (Whole (length (s ++ [small])))
                   ((s ++ [small]) ++ [big])
                 = (<[image := assign_region frame x y w h big]> ((s ++ [small]) ++ [big]),
                    Ok ())).
  { unfold setitem. cbn [fst snd]. rewrite value_of_fresh.
    assert (Himg : ((s ++ [small]) ++ [big]) !!! image = frame).
    { rewrite !lookup_total_app_l; [exact Hget | exact Hlt | rewrite length_app; lia]. }
    rewrite Himg.
    rewrite (inside_rows _ _ _ _ _ Hin), (inside_cols _ _ _ _ _ Hin). cbn [fst snd].
    replace (Z.to_nat (y + h) - Z.to_nat y)%nat with (rows big) by (simpl; lia).
    replace (Z.to_nat (x + w) - Z.to_nat x)%nat with (cols big) by (simpl; lia).
    rewrite !broadcast_dim_refl. unfold assign_region.
    rewrite (inside_rows _ _ _ _ _ Hin), (inside_cols _ _ _ _ _ Hin). reflexivity. }
  unfold anonymize_face.
  change (String.eqb "pixelate" "blur") with false.
  change (String.eqb "pixelate" "pixelate") with true.
  rewrite (bind_ok _ _ _ _ _ Hv), (bind_ok _ _ _ _ _ Hbranch), (bind_ok _ _ _ _ _ Hset).
  eexists. split; [reflexivity|].
  unfold region_of. rewrite list_lookup_total_insert_eq by (rewrite !length_app; lia).
  split; [reflexivity|].
  exact (region_view_shape (assign_region frame x y w h big) x y w h Hin).
Qed.

(** ** One frame *)

(** C8.  When the locator finds no face on a frame, [process_image]
    returns the reference of the frame it was given with a face count of 0,
    and the frame is the array it was, every pixel included. *)
Theorem no_faces_frame_unchanged image_array method intensity (s s1 : store)
    (Hnone : detect_faces_deepface image_array s = (s1, Ok [])) :
  process_image image_array method intensity s = (s1, Ok (image_array, 0)) /\
  forall frame, s !! image_array = Some frame ->
    s1 !! image_array = Some frame /\
    forall i j c, px (s1 !!! image_array) i j c = px frame i j c.
Proof.
  split.
  - unfold process_image, bind. rewrite Hnone. reflexivity.
  - intros frame Hframe.
    pose proof (detect_faces_deepface_lookup _ _ _ Hframe) as Hsame.
    rewrite Hnone in Hsame. cbn [fst] in Hsame.
    split; [exact Hsame|]. intros i j c.
    rewrite (list_lookup_total_correct _ _ _ Hsame). reflexivity.
Qed.

(** ** Regions the locator returns *)

Lemma face_location_inside frame face r :
  detection_inside frame face -> face_location face = Some r -> region_ok frame r.
Proof.
  unfold detection_inside, face_location. intros Hface Hloc.
  destruct (facial_area face) as [area|]; simpl in Hloc.
  - destruct (decide (area = ∅)) as [Hempty|Hfull]; [discriminate|].
    destruct (Hface area eq_refl Hfull) as (x & y & w & h & Ex & Ey & Ew & Eh & Hin).
    rewrite Ex, Ey, Ew, Eh in Hloc. simpl in Hloc. injection Hloc as <-. exact Hin.
  - destruct (decide (∅ = ∅)) as [_|Hne]; [discriminate | congruence].
Qed.

Lemma face_locations_inside frame faces :
  Forall (detection_inside frame) faces ->
  Forall (region_ok frame) (omap face_location faces).
Proof.
  induction 1 as [|face faces Hface _ IH]; simpl; [constructor|].
  destruct (face_location face) as [r|] eqn:Hloc; [|exact IH].
  constructor; [|exact IH]. eapply face_location_inside; eauto.
Qed.

(** The loop of lines 72-79 returns what the detections report. *)
Lemma face_locations_reported (faces : list face_obj) :
  omap face_location faces = reported_regions faces.
Proof.
  unfold reported_regions. induction faces as [|face faces IH]; [reflexivity|].
  cbn [omap list_omap]. unfold face_location at 1.
  destruct (facial_area face) as [area|]; cbn [from_option id].
  - destruct (decide (area = ∅)) as [Hempty | Hfull].
    + rewrite filter_cons_False by (intros Hne; exact (Hne Hempty)). exact IH.
    + rewrite filter_cons_True by exact Hfull. cbn [fmap list_fmap].
      rewrite IH. reflexivity.
  - destruct (decide (∅ = ∅)) as [_ | Hne]; [exact IH | congruence].
Qed.

(** C4, as the code has it.  The locator returns the regions the detector
    reports, unchanged and in order: when DeepFace answers, the regions read
    from the facial areas that are there and not empty (0 for a missing
    coordinate); when DeepFace raises and the cascade search succeeds, the
    rectangles of the cascade.  It adds no check and no clamping of its own.
    Hence, when every detection of DeepFace on the frame has a facial area
    with the four coordinates of a region inside the frame, and every
    rectangle of the cascade detector is inside the frame, every region the
    locator returns satisfies the invariant. *)
Theorem locator_regions_inside image_array (s : store) (frame : ndarray)
    (Hframe : s !! image_array = Some frame) :
  (forall faces, extract_faces frame "retinaface" false false = Ok faces ->
     snd (detect_faces_deepface image_array s) = Ok (reported_regions faces)) /\
  (forall e gray rects, extract_faces frame "retinaface" false false = Raise e ->
     cvtColor_BGR2GRAY frame = Ok gray ->
     detectMultiScale gray (13 # 10)%Q 5 = Ok rects ->
     snd (detect_faces_deepface image_array s) = Ok rects) /\
  ((forall faces, extract_faces frame "retinaface" false false = Ok faces ->
      Forall (detection_inside frame) faces) ->
   (forall gray rects, cvtColor_BGR2GRAY frame = Ok gray ->
      detectMultiScale gray (13 # 10)%Q 5 = Ok rects -> Forall (region_ok frame) rects) ->
   forall regions, snd (detect_faces_deepface image_array s) = Ok regions ->
     Forall (region_ok frame) regions).
Proof.
  rewrite detect_faces_deepface_run, detect_faces_opencv_run.
  rewrite (list_lookup_total_correct _ _ _ Hframe).
  split; [|split].
  - intros faces ->. cbn [snd]. rewrite face_locations_reported. reflexivity.
  - intros e gray rects -> -> ->. reflexivity.
  - intros Hdeepface Hcascade regions.
    destruct (extract_faces frame "retinaface" false false) as [faces|e] eqn:Hfaces.
    + cbn [snd]. intros [= <-]. apply face_locations_inside. apply Hdeepface. reflexivity.
    + destruct (cvtColor_BGR2GRAY frame) as [gray|e1] eqn:Hgray; cbn [snd].
      * destruct (detectMultiScale gray (13 # 10)%Q 5) as [rects|e2] eqn:Hrects.
        -- intros [= <-]. eapply Hcascade; eauto.
        -- intros [= <-]. constructor.
      * intros [= <-]. constructor.
Qed.

(** ** The video pipeline *)

(** What the loop guarantees when it ends without an exception: every
    frame the capture held was read, counted and written, and the writer
    keeps its configuration. *)
Lemma video_loop_ok frames : forall cap total_frames method intensity frame_count
    total_faces out (s : store) st total_faces' frame_count',
  video_loop frames cap total_frames method intensity frame_count total_faces out s
    = (st, Ok (total_faces', frame_count')) ->
  frame_count' = frame_count + Z.of_nat (length frames) /\
  cap_frames (vs_cap st) = [] /\
  cap_released (vs_cap st) = cap_released cap /\
  out_fps (vs_out st) = out_fps out /\
  out_size (vs_out st) = out_size out /\
  out_released (vs_out st) = out_released out /\
  length (out_frames (vs_out st)) = (length (out_frames out) + length frames)%nat.
Proof.
  induction frames as [|decoded rest IH];
    intros cap total_frames method intensity frame_count total_faces out s st tf fc Hrun.
  - simpl in Hrun. injection Hrun as <- <- <-. simpl.
    repeat split; try reflexivity; lia.
  - cbn [video_loop] in Hrun.
    destruct ((copied ← np_copy (Whole (length s)); process_image copied method intensity)
                (s ++ [decoded])) as [s2 [[processed_frame faces_count]|e]];
      [|discriminate].
    destruct ((frame_count + 1) `mod` 10 =? 0) eqn:Hten;
      destruct (total_frames =? 0) eqn:Htotal; cbn [andb] in Hrun; try discriminate;
      apply IH in Hrun as (Hfc & Hfr & Hcr & Hfps & Hsize & Hrel & Hlen);
      cbn [out_write cap_with_frames cap_released out_fps out_size out_released out_frames]
        in *; rewrite ?length_app in Hlen; cbn [length] in *;
      (repeat split; try assumption; lia).
Qed.

(** When the loop is left by an exception no handle has been touched. *)
Lemma video_loop_raise frames : forall cap total_frames method intensity frame_count
    total_faces out (s : store) st e,
  video_loop frames cap total_frames method intensity frame_count total_faces out s
    = (st, Raise e) ->
  cap_released (vs_cap st) = cap_released cap /\
  out_released (vs_out st) = out_released out.
Proof.
  induction frames as [|decoded rest IH];
    intros cap total_frames method intensity frame_count total_faces out s st e Hrun.
  - simpl in Hrun. discriminate.
  - cbn [video_loop] in Hrun.
    destruct ((copied ← np_copy (Whole (length s)); process_image copied method intensity)
                (s ++ [decoded])) as [s2 [[processed_frame faces_count]|e1]].
    + destruct (((frame_count + 1) `mod` 10 =? 0) && (total_frames =? 0)).
      * injection Hrun as <- <-. split; reflexivity.
      * apply IH in Hrun as [Hcap Hout]. split; assumption.
    + injection Hrun as <- <-. split; reflexivity.
Qed.

(** An exception leaves [process_video] before the two [release] calls;
    a normal return comes after them. *)
Lemma process_video_release cap method intensity (s : store) :
  match process_video cap method intensity s with
  | (st, Ok _) =>
      cap_released (vs_cap st) = true /\ out_released (vs_out st) = true
  | (st, Raise _) =>
      cap_released (vs_cap st) = cap_released cap /\ out_released (vs_out st) = false
  end.
Proof.
  unfold process_video.
  destruct (isOpened cap).
  - destruct (video_loop _ _ _ _ _ _ _ _ _) as [st [[tf fc]|e]] eqn:Hloop.
    + split; reflexivity.
    + apply video_loop_raise in Hloop. exact Hloop.
  - split; reflexivity.
Qed.

(** [int] of a float that holds a whole number. *)
Lemma py_int_inject_Z n : py_int (inject_Z n) = n.
Proof. unfold py_int, inject_Z. simpl. apply Z.quot_1_r. Qed.

Lemma py_int_whole q n : (q == inject_Z n)%Q -> py_int q = n.
Proof.
  unfold Qeq, py_int, inject_Z. simpl. intros Heq.
  rewrite Z.mul_1_r in Heq. rewrite Heq. apply Z.quot_mul. lia.
Qed.

Lemma anonymize_face_quiet image x y w h method intensity (s : store) :
  quiet method -> (image < length s)%nat ->
  exists s', anonymize_face image x y w h method intensity s = (s', Ok image) /\
             (length s <= length s')%nat.
Proof.
  intros [-> | Hno] Hlt.
  - rewrite (anonymize_face_mask_run _ _ _ _ _ _ _ Hlt). cbv zeta.
    eexists. split; [reflexivity|]. rewrite length_insert, length_app. lia.
  - rewrite (anonymize_face_unrecognized_run _ _ _ _ _ _ _ _ Hno).
    eexists. split; [reflexivity|]. rewrite length_insert. lia.
Qed.

Lemma anonymize_all_quiet image method intensity regions : forall (s : store),
  quiet method -> (image < length s)%nat ->
  exists s', anonymize_all image regions method intensity s = (s', Ok image) /\
             (length s <= length s')%nat.
Proof.
  induction regions as [|[[[x y] w] h] rest IH]; intros s Hq Hlt.
  - exists s. split; [reflexivity | lia].
  - destruct (anonymize_face_quiet image x y w h method intensity s Hq Hlt)
      as (s1 & Hface & Hlen).
    destruct (IH s1 Hq ltac:(lia)) as (s2 & Hrest & Hlen2).
    exists s2. split; [|lia].
    cbn [anonymize_all]. rewrite (bind_ok _ _ _ _ _ Hface). exact Hrest.
Qed.

Lemma detect_faces_deepface_total image_array (s : store) :
  exists s' regions, detect_faces_deepface image_array s = (s', Ok regions) /\
                     (length s <= length s')%nat.
Proof.
  pose proof (detect_faces_deepface_store image_array s) as Hstore.
  pose proof (detect_faces_deepface_ok image_array s) as [regions Hok].
  destruct (detect_faces_deepface image_array s) as [s' r]. cbn [fst snd] in *.
  subst r. exists s', regions. split; [reflexivity|].
  destruct Hstore as [-> | [gray ->]]; rewrite ?length_app; lia.
Qed.

Lemma process_image_quiet image_array method intensity (s : store) :
  quiet method -> (image_array < length s)%nat ->
  exists s' n, process_image image_array method intensity s = (s', Ok (image_array, n)).
Proof.
  intros Hq Hlt.
  destruct (detect_faces_deepface_total image_array s) as (s1 & regions & Hdet & Hlen).
  destruct (anonymize_all_quiet image_array method intensity regions s1 Hq ltac:(lia))
    as (s2 & Hall & _).
  exists s2, (Z.of_nat (length regions)). unfold process_image.
  rewrite (bind_ok _ _ _ _ _ Hdet), (bind_ok _ _ _ _ _ Hall). reflexivity.
Qed.

(** With such a method, and a container that reports its frame count, the
    loop reads every frame and ends normally. *)
Lemma video_loop_returns method intensity total_frames frames :
  quiet method -> total_frames <> 0 ->
  forall cap frame_count total_faces out (s : store),
  exists st total_faces',
    video_loop frames cap total_frames method intensity frame_count total_faces out s
      = (st, Ok (total_faces', frame_count + Z.of_nat (length frames))).
Proof.
  intros Hq Htotal. apply Z.eqb_neq in Htotal.
  induction frames as [|decoded rest IH]; intros cap frame_count total_faces out s.
  - eexists _, _. simpl. rewrite Z.add_0_r. reflexivity.
  - cbn [video_loop].
    destruct (process_image_quiet (length (s ++ [decoded])) method intensity
                ((s ++ [decoded]) ++ [value_of (s ++ [decoded]) (Whole (length s))]) Hq)
      as (s2 & n & Hproc); [rewrite !length_app; simpl; lia|].
    rewrite (bind_ok _ _ _ _ (length (s ++ [decoded])) eq_refl), Hproc.
    rewrite Htotal, andb_false_r.
    destruct (IH (cap_with_frames cap rest) (frame_count + 1) (total_faces + n)
                (out_write out (s2 !!! length (s ++ [decoded]))) s2) as (st & tf & Hrest).
    exists st, tf. rewrite Hrest. do 3 f_equal. cbn [length]. lia.
Qed.

Lemma process_video_returns cap method intensity (s : store) :
  quiet method -> isOpened cap = true -> cap_total cap <> 0 ->
  exists st total_faces,
    process_video cap method intensity s
      = (st, Ok (total_faces, Z.of_nat (length (cap_frames cap)))).
Proof.
  intros Hq Hopen Htotal. unfold process_video. rewrite Hopen.
  assert (Hopened : cap_opened cap = true).
  { unfold isOpened in Hopen. apply andb_true_iff in Hopen. tauto. }
  unfold cap_get, CAP_PROP_FRAME_COUNT. rewrite Hopened, py_int_inject_Z.
  destruct (video_loop_returns method intensity (cap_total cap) (cap_frames cap) Hq Htotal
              cap 0 0 (VideoWriter "mp4v" (py_int (CAP_PROP_FPS cap))
                 (py_int (CAP_PROP_FRAME_WIDTH cap), py_int (CAP_PROP_FRAME_HEIGHT cap))) s)
    as (st & tf & Hloop).
  rewrite Hloop. eexists _, _. reflexivity.
Qed.

(** C5, as the code has it.  When [process_video] returns, the frame count
    it returns is the number of frames read from the input, which is also
    the number of frames written; the writer was created with the width and
    height of the input container and with [int] of its frame rate, that
    is the frame rate cut to a whole number: the same frame rate exactly
    when the input's is a whole number. *)
Theorem process_video_count_and_encoder cap method intensity (s : store) st
    total_faces frame_count
    (Hopen : cap_opened cap = true)
    (Hrun : process_video cap method intensity s = (st, Ok (total_faces, frame_count))) :
  frame_count = frames_read cap (vs_cap st) /\
  Z.of_nat (length (out_frames (vs_out st))) = frame_count /\
  out_size (vs_out st) = (cap_width cap, cap_height cap) /\
  out_fps (vs_out st) = py_int (cap_fps cap) /\
  (forall n, (cap_fps cap == inject_Z n)%Q -> out_fps (vs_out st) = n).
Proof.
  unfold process_video, cap_get, CAP_PROP_FPS, CAP_PROP_FRAME_WIDTH,
    CAP_PROP_FRAME_HEIGHT, CAP_PROP_FRAME_COUNT, frames_read in *.
  rewrite Hopen, !py_int_inject_Z in Hrun.
  assert (Hgoal : frame_count = Z.of_nat (length (cap_frames cap)) -
                    Z.of_nat (length (cap_frames (vs_cap st))) /\
                  Z.of_nat (length (out_frames (vs_out st))) = frame_count /\
                  out_size (vs_out st) = (cap_width cap, cap_height cap) /\
                  out_fps (vs_out st) = py_int (cap_fps cap)).
  { destruct (isOpened cap).
    - destruct (video_loop _ _ _ _ _ _ _ _ _) as [st1 [[tf fc]|e]] eqn:Hloop;
        [|discriminate].
      injection Hrun as <- <- <-.
      apply video_loop_ok in Hloop as (Hfc & Hfr & _ & Hfps & Hsize & _ & Hlen).
      cbn [vs_cap vs_out cap_release out_release cap_frames out_frames out_size out_fps
           VideoWriter length] in *.
      rewrite Hfr, Hlen. cbn [length]. repeat split; try assumption; lia.
    - injection Hrun as <- <- <-. cbn. repeat split; lia. }
  destruct Hgoal as (Hcount & Hwritten & Hsize & Hfps).
  repeat split; try assumption.
  intros n Hn. rewrite Hfps. apply py_int_whole. exact Hn.
Qed.

End Properties.

(** * The pipeline on concrete frames *)

Lemma frame_640x480_inside : inside frame_640x480 100 50 40 40.
Proof. unfold inside. simpl. lia. Qed.

Lemma blur_kernel_size_odd_witness :
  Z.odd (kernel_size 50) = true /\ kernel_size 50 = 51 /\ kernel_size 51 = 51.
Proof.
  destruct (@blur_kernel_size_odd V_none 50 ltac:(lia)) as (Hodd & _ & Heven & _).
  destruct (@blur_kernel_size_odd V_none 51 ltac:(lia)) as (_ & Hsame & _).
  split; [exact Hodd|]. split; [apply Heven | apply Hsame]; reflexivity.
Defined.

Lemma locator_never_raises_witness :
  snd (@detect_faces_deepface V_down 0%nat [frame_640x480]) = Ok [].
Proof.
  destruct (@locator_never_raises V_down 0%nat [frame_640x480])
    as (_ & _ & Hfallback & _ & Hcascade).
  rewrite (Hfallback _ eq_refl). exact (Hcascade _ _ eq_refl eq_refl).
Defined.

Lemma detection_leaves_frame_unchanged_witness :
  fst (@detect_faces_deepface V_down 0%nat [frame_640x480]) !! 0%nat = Some frame_640x480 /\
  length (fst (@detect_faces_opencv V_down 0%nat [frame_640x480])) = 2%nat.
Proof.
  destruct (@detection_leaves_frame_unchanged V_down 0%nat [frame_640x480]
              frame_640x480 eq_refl) as (Hsame & _ & _ & Hgray).
  split; [exact Hsame|].
  destruct (Hgray _ eq_refl) as [-> _]. reflexivity.
Defined.

Lemma unrecognized_method_is_noop_witness :
  exists s', @anonymize_face V_face 0%nat 100 50 40 40 "none" 51 [frame_640x480]
               = (s', Ok 0%nat) /\
             px (s' !!! 0%nat) 60 110 2 = px frame_640x480 60 110 2.
Proof.
  destruct (@unrecognized_method_is_noop V_face 0%nat 100 50 40 40 "none" 51
              [frame_640x480]) as (s' & Hrun & _ & _ & _ & Hpx);
    [discriminate | discriminate | discriminate |].
  exists s'. split; [exact Hrun|]. apply Hpx; simpl; lia.
Defined.

Lemma mask_blackens_region_witness :
  exists s', @anonymize_face V_face 0%nat 100 50 40 40 "mask" 51 [frame_640x480]
               = (s', Ok 0%nat) /\
             px (s' !!! 0%nat) 60 110 2 = 0 /\
             shape (region_of s' 0%nat 100 50 40 40) = (40%nat, 40%nat, 3%nat).
Proof.
  destruct (@mask_blackens_region V_face 0%nat 100 50 40 40 51 [frame_640x480]
              frame_640x480 eq_refl frame_640x480_inside)
    as (s' & Hrun & _ & Hzero & _ & Hshape & _).
  exists s'. split; [exact Hrun|]. split; [apply Hzero; lia | exact Hshape].
Defined.

Lemma no_faces_frame_unchanged_witness :
  @process_image V_none 0%nat "blur" 51 [frame_640x480]
    = ([frame_640x480], Ok (0%nat, 0)).
Proof.
  exact (proj1 (@no_faces_frame_unchanged V_none 0%nat "blur" 51 [frame_640x480]
                  [frame_640x480] eq_refl)).
Defined.

(** C1 on the code: a face of 40 x 40 pixels, pixelated with the default
    intensity 51.  [40 // 51] is 0, the first [cv2.resize] is asked for a
    0 x 0 image, and the call raises instead of producing a frame. *)
Theorem pixelate_small_face_raises :
  @anonymize_face V_face 0%nat 100 50 40 40 "pixelate" 51 [frame_640x480]
    = ([frame_640x480], Raise cv2_error) /\
  @process_image V_face 0%nat "pixelate" 51 [frame_640x480]
    = ([frame_640x480], Raise cv2_error).
Proof. split; vm_compute; reflexivity. Qed.

(** C2 on the code: the same face in a one-frame video.  The exception
    leaves [process_video] with the capture and the writer not released. *)
Theorem process_video_error_skips_release :
  let out := @process_video V_face clip_30 "pixelate" 51 [] in
  snd out = Raise cv2_error /\
  cap_released (vs_cap (fst out)) = false /\
  out_released (vs_out (fst out)) = false.
Proof. vm_compute. repeat split; reflexivity. Qed.

(** C4 as stated fails: the locator hands on a face box that leaves the
    frame. *)
Lemma locator_regions_inside_counterexample :
  snd (@detect_faces_deepface V_edge 0%nat [frame_640x480]) = Ok [(620, 460, 40, 40)] /\
  ~ region_ok frame_640x480 (620, 460, 40, 40).
Proof.
  split; [vm_compute; reflexivity|].
  unfold region_ok, inside. simpl. lia.
Qed.

(** A facial area that lacks coordinates is read with 0 in their place. *)
Example face_location_missing_keys :
  @face_location (mk_face (Some {["x" := 5]})) = Some (5, 0, 0, 0) /\
  @face_location (mk_face (Some ∅)) = None /\
  @face_location (mk_face None) = None.
Proof. repeat split; vm_compute; reflexivity. Qed.

Lemma face_at_inside x y w h frame :
  inside frame x y w h -> detection_inside frame (face_at x y w h).
Proof.
  intros Hin area [= <-] _. exists x, y, w, h.
  do 4 (split; [reflexivity|]). exact Hin.
Qed.

Lemma locator_regions_inside_witness :
  snd (@detect_faces_deepface V_face 0%nat [frame_640x480]) = Ok [(100, 50, 40, 40)] /\
  Forall (region_ok frame_640x480) [(100, 50, 40, 40)].
Proof.
  destruct (@locator_regions_inside V_face 0%nat [frame_640x480] frame_640x480 eq_refl)
    as (Hreads & _ & Hinside).
  split; [exact (Hreads _ eq_refl)|].
  apply Hinside.
  - intros faces [= <-]. constructor; [|constructor].
    apply face_at_inside. exact frame_640x480_inside.
  - intros gray rects _ [= <-]. constructor.
  - reflexivity.
Defined.

(** C5 as stated fails: a clip at 30000/1001 frames per second is written
    at 29 frames per second. *)
Lemma process_video_fps_counterexample :
  let out := @process_video V_none clip_ntsc "blur" 51 [] in
  snd out = Ok (0, 1) /\
  out_fps (vs_out (fst out)) = 29 /\
  ~ (inject_Z (out_fps (vs_out (fst out))) == cap_fps clip_ntsc)%Q.
Proof.
  vm_compute. split; [reflexivity|]. split; [reflexivity|]. discriminate.
Qed.

Lemma process_video_count_and_encoder_witness :
  let out := @process_video V_face clip_30 "mask" 51 [] in
  snd out = Ok (1, 1) /\
  out_fps (vs_out (fst out)) = 30 /\
  out_size (vs_out (fst out)) = (640, 480).
Proof.
  pose proof (@process_video_count_and_encoder V_face clip_30 "mask" 51 []
                (fst (@process_video V_face clip_30 "mask" 51 [])) 1 1 eq_refl)
    as Hthm.
  destruct Hthm as (_ & _ & Hsize & _ & Hfps); [vm_compute; reflexivity|].
  split; [vm_compute; reflexivity|]. split; [|exact Hsize].
  apply Hfps. reflexivity.
Defined.


(** * Further properties *)

(** ** What a call may do to the store *)

Lemma allocates_ret {A} (a : A) : allocates (ret a).
Proof. intros s s1 r [= <- <-]. exists []. rewrite app_nil_r. reflexivity. Qed.

Lemma allocates_raise {A} e : allocates (@raise A e).
Proof. intros s s1 r [= <- <-]. exists []. rewrite app_nil_r. reflexivity. Qed.

Lemma allocates_bind {A B} (m : M A) (f : A -> M B) :
  allocates m -> (forall a, allocates (f a)) -> allocates (bind m f).
Proof.
  intros Hm Hf s s2 r. unfold bind.
  destruct (m s) as [s1 [a|e]] eqn:Hrun.
  - intros Hrest. destruct (Hm _ _ _ Hrun) as [extra1 ->].
    destruct (Hf a _ _ _ Hrest) as [extra2 ->].
    exists (extra1 ++ extra2). rewrite app_assoc. reflexivity.
  - intros [= <- <-]. exact (Hm _ _ _ Hrun).
Qed.

Lemma allocates_floordiv a b : allocates (floordiv a b).
Proof.
  unfold floordiv. destruct (b =? 0); [apply allocates_raise | apply allocates_ret].
Qed.

Lemma allocates_alloc a : allocates (alloc a).
Proof. intros s s1 r [= <- <-]. exists [a]. reflexivity. Qed.

Lemma allocates_zeros_like v : allocates (np_zeros_like v).
Proof. intros s s1 r. unfold np_zeros_like. apply allocates_alloc. Qed.

Lemma allocates_getitem image ys xs : allocates (getitem image ys xs).
Proof. intros s s1 r [= <- <-]. exists []. rewrite app_nil_r. reflexivity. Qed.

Section FrameEffects.
Context `{V : Vision}.

Lemma allocates_call_new f v : allocates (call_new f v).
Proof.
  intros s s1 r. unfold call_new. destruct (f (value_of s v)) as [a|e].
  - apply allocates_alloc.
  - intros [= <- <-]. exists []. rewrite app_nil_r. reflexivity.
Qed.

Lemma allocates_cv2_resize v dsize interp : allocates (cv2_resize v dsize interp).
Proof.
  intros s s1 r. unfold cv2_resize.
  destruct (is_empty (value_of s v) || (dsize.1 <=? 0) || (dsize.2 <=? 0)).
  - intros [= <- <-]. exists []. rewrite app_nil_r. reflexivity.
  - apply allocates_alloc.
Qed.

(** The anonymized region is computed without writing to any object. *)
Lemma allocates_anonymized face_region w h method intensity :
  allocates
    (if String.eqb method "blur" then
       cv2_GaussianBlur face_region (kernel_size intensity, kernel_size intensity) 0
     else if String.eqb method "pixelate" then
       dw ← floordiv w intensity;
       dh ← floordiv h intensity;
       small_face ← cv2_resize face_region (dw, dh) INTER_LINEAR;
       cv2_resize small_face (w, h) INTER_NEAREST
     else if String.eqb method "mask" then
       np_zeros_like face_region
     else
       ret face_region).
Proof.
  destruct (String.eqb method "blur"); [apply allocates_call_new|].
  destruct (String.eqb method "pixelate").
  - apply allocates_bind; [apply allocates_floordiv|]. intros dw.
    apply allocates_bind; [apply allocates_floordiv|]. intros dh.
    apply allocates_bind; [apply allocates_cv2_resize|]. intros small.
    apply allocates_cv2_resize.
  - destruct (String.eqb method "mask");
      [apply allocates_zeros_like | apply allocates_ret].
Qed.

(** The two ways [anonymize_face] ends: an exception, with the objects of
    the store as they were, or the frame with the slice overwritten. *)
Lemma anonymize_face_outcome image x y w h method intensity (s s' : store) r :
  (image < length s)%nat ->
  anonymize_face image x y w h method intensity s = (s', r) ->
  exists extra,
    (exists e, r = Raise e /\ s' = s ++ extra) \/
    (exists src, r = Ok image /\
       s' = <[image := assign_region (s !!! image) x y w h src]> (s ++ extra)).
Proof.
  intros Hlt Hrun. unfold anonymize_face in Hrun.
  destruct (getitem_region_of image x y w h s) as (v & Hv & _).
  rewrite (bind_ok _ _ _ _ _ Hv) in Hrun. unfold bind at 1 in Hrun.
  match type of Hrun with context [ (if String.eqb method "blur" then ?a else ?b) s ] =>
    destruct ((if String.eqb method "blur" then a else b) s) as [s1 [an|e]] eqn:Hbranch
  end.
  - apply allocates_anonymized in Hbranch as [extra ->]. exists extra.
    unfold bind, setitem, ret in Hrun. cbn [fst snd] in Hrun.
    rewrite !(lookup_total_app_l s extra image) in Hrun by exact Hlt.
    destruct (broadcast_dim _ _ && broadcast_dim _ _ && broadcast_dim _ _) in Hrun.
    + injection Hrun as <- <-. right. eexists. split; reflexivity.
    + injection Hrun as <- <-. left. eexists. split; reflexivity.
  - apply allocates_anonymized in Hbranch as [extra ->]. exists extra.
    injection Hrun as <- <-. left. eexists. split; reflexivity.
Qed.

Lemma frame_kept_refl image (s : store) : frame_kept image s s.
Proof. repeat split; auto. Qed.

Lemma frame_kept_trans image (s s1 s2 : store) :
  frame_kept image s s1 -> frame_kept image s1 s2 -> frame_kept image s s2.
Proof.
  intros (Hlen1 & Hshape1 & Hother1) (Hlen2 & Hshape2 & Hother2).
  split; [lia|]. split; [congruence|].
  intros r Hr Hne. rewrite Hother2 by (lia || exact Hne). apply Hother1; assumption.
Qed.

Lemma frame_kept_app image (s extra : store) :
  (image < length s)%nat -> frame_kept image s (s ++ extra).
Proof.
  intros Hlt. split; [rewrite length_app; lia|].
  split; [rewrite lookup_total_app_l by exact Hlt; reflexivity|].
  intros r Hr _. apply lookup_app_l. exact Hr.
Qed.

Lemma frame_kept_assign image (s extra : store) x y w h src :
  (image < length s)%nat ->
  frame_kept image s
    (<[image := assign_region (s !!! image) x y w h src]> (s ++ extra)).
Proof.
  intros Hlt. split; [rewrite length_insert, length_app; lia|]. split.
  - rewrite list_lookup_total_insert_eq by (rewrite length_app; lia). reflexivity.
  - intros r Hr Hne. rewrite list_lookup_insert_ne by congruence.
    apply lookup_app_l. exact Hr.
Qed.

(** X1.  Whatever the method, the region and the intensity, a call of
    [anonymize_face] on a frame of the store leaves every other object as
    it was and the frame with its shape; the pixels the slice
    [image[y:y+h, x:x+w]] does not select keep their values; a call that
    returns, returns the reference it was given, and a call that raises
    leaves the frame as it was. *)
Theorem anonymize_face_frame_effect image x y w h method intensity (s s' : store) r
    (Hlive : (image < length s)%nat)
    (Hrun : anonymize_face image x y w h method intensity s = (s', r)) :
  frame_kept image s s' /\
  (forall i j c, outside_slice (s !!! image) x y w h i j ->
     px (s' !!! image) i j c = px (s !!! image) i j c) /\
  (forall img, r = Ok img -> img = image) /\
  (forall e, r = Raise e -> s' !! image = s !! image).
Proof.
  destruct (anonymize_face_outcome _ _ _ _ _ _ _ _ _ _ Hlive Hrun)
    as [extra [(e & -> & ->) | (src & -> & ->)]].
  - split; [apply frame_kept_app; exact Hlive|].
    split; [intros i j c _; rewrite lookup_total_app_l by exact Hlive; reflexivity|].
    split; [discriminate|]. intros _ _. apply lookup_app_l. exact Hlive.
  - split; [apply frame_kept_assign; exact Hlive|]. split; [|split].
    + intros i j c Hout.
      rewrite list_lookup_total_insert_eq by (rewrite length_app; lia).
      unfold outside_slice in Hout. unfold assign_region. cbn [assign px].
      rewrite Hout. reflexivity.
    + intros img [= <-]. reflexivity.
    + discriminate.
Qed.

Lemma anonymize_all_frame_kept image method intensity regions :
  forall (s s' : store) r, (image < length s)%nat ->
  anonymize_all image regions method intensity s = (s', r) ->
  frame_kept image s s' /\ (forall img, r = Ok img -> img = image).
Proof.
  induction regions as [|[[[x y] w] h] rest IH]; intros s s' r Hlive Hrun.
  - injection Hrun as <- <-. split; [apply frame_kept_refl|]. intros img [= <-]. reflexivity.
  - cbn [anonymize_all] in Hrun. unfold bind in Hrun.
    destruct (anonymize_face image x y w h method intensity s) as [s1 r1] eqn:Hface.
    destruct (anonymize_face_outcome _ _ _ _ _ _ _ _ _ _ Hlive Hface)
      as [extra [(e & -> & ->) | (src & -> & ->)]].
    + injection Hrun as <- <-. split; [apply frame_kept_app; exact Hlive | discriminate].
    + apply IH in Hrun as [Hkept Himg];
        [|rewrite length_insert, length_app; lia].
      split; [|exact Himg].
      eapply frame_kept_trans; [apply frame_kept_assign; exact Hlive | exact Hkept].
Qed.

Lemma process_image_outcome image_array method intensity (s s' : store) r :
  (image_array < length s)%nat ->
  process_image image_array method intensity s = (s', r) ->
  frame_kept image_array s s' /\
  exists regions,
    snd (detect_faces_deepface image_array s) = Ok regions /\
    forall img n, r = Ok (img, n) ->
      img = image_array /\ n = Z.of_nat (length regions).
Proof.
  intros Hlive Hrun.
  destruct (detect_faces_deepface_total image_array s) as (s1 & regions & Hdet & Hlen).
  pose proof (detect_faces_deepface_store image_array s) as Hstore.
  rewrite Hdet in Hstore. cbn [fst] in Hstore.
  assert (Hkept1 : frame_kept image_array s s1).
  { destruct Hstore as [-> | [gray ->]];
      [apply frame_kept_refl | apply frame_kept_app; exact Hlive]. }
  unfold process_image in Hrun. rewrite (bind_ok _ _ _ _ _ Hdet) in Hrun.
  unfold bind in Hrun.
  destruct (anonymize_all image_array regions method intensity s1) as [s2 r2] eqn:Hall.
  apply anonymize_all_frame_kept in Hall as [Hkept2 Himg]; [|lia].
  split.
  - destruct r2; injection Hrun as <- <-; eapply frame_kept_trans; eauto.
  - exists regions. rewrite Hdet. split; [reflexivity|].
    intros img n ->. destruct r2 as [img2|e]; [|discriminate].
    injection Hrun as _ <- <-. split; [apply Himg; reflexivity | reflexivity].
Qed.

(** X2.  [process_image] never resizes the frame: however it ends, the
    frame has the shape it had and every other object of the store is as it
    was.  When it returns, it returns the reference it was given, and the
    count is the number of regions the locator returned. *)
Theorem process_image_frame_effect image_array method intensity (s s' : store) r
    (Hlive : (image_array < length s)%nat)
    (Hrun : process_image image_array method intensity s = (s', r)) :
  frame_kept image_array s s' /\
  exists regions,
    snd (detect_faces_deepface image_array s) = Ok regions /\
    forall img n, r = Ok (img, n) ->
      img = image_array /\ n = Z.of_nat (length regions).
Proof. exact (process_image_outcome _ _ _ _ _ _ Hlive Hrun). Qed.

(** ** Regions that reach past the frame, and intensity 0 *)

Lemma slice_bounds_clip n lo len :
  0 <= lo -> 0 <= len ->
  slice_bounds n lo (lo + len) =
    (Z.to_nat (Z.min lo (Z.of_nat n)), Z.to_nat (Z.min (lo + len) (Z.of_nat n))).
Proof.
  intros Hlo Hlen. unfold slice_bounds, slice_index.
  destruct (lo <? 0) eqn:E1; [lia|].
  destruct (lo + len <? 0) eqn:E2; [lia|].
  f_equal. f_equal. lia.
Qed.

(** X3.  The mask method on a region that starts inside the frame and may
    reach past its right or bottom edge: the call returns, the pixels of the
    region that lie in the frame are zero and every other pixel of the
    frame is as it was. *)
Theorem mask_clips_to_frame image x y w h intensity (s : store) (frame : ndarray)
    (Hframe : s !! image = Some frame)
    (Hx : 0 <= x) (Hy : 0 <= y) (Hw : 0 <= w) (Hh : 0 <= h) :
  exists s',
    anonymize_face image x y w h "mask" intensity s = (s', Ok image) /\
    shape (s' !!! image) = shape frame /\
    forall i j c, (i < rows frame)%nat -> (j < cols frame)%nat ->
      px (s' !!! image) i j c =
        if decide (y <= Z.of_nat i < y + h /\ x <= Z.of_nat j < x + w)
        then 0 else px frame i j c.
Proof.
  assert (Hlt : (image < length s)%nat) by (eapply lookup_lt_Some; eauto).
  assert (Hget : s !!! image = frame) by (apply list_lookup_total_correct; exact Hframe).
  rewrite (anonymize_face_mask_run _ _ _ _ _ _ _ Hlt). cbv zeta. rewrite Hget.
  eexists. split; [reflexivity|].
  rewrite list_lookup_total_insert_eq by (rewrite length_app; lia).
  split; [reflexivity|]. intros i j c Hi Hj.
  unfold assign_region. rewrite !slice_bounds_clip by assumption.
  cbn [fst snd assign px].
  destruct (in_box _ _ _ _ i j) eqn:Hbox.
  - apply in_box_true in Hbox. rewrite decide_True by lia. reflexivity.
  - rewrite decide_False; [reflexivity|]. intros Hyes.
    apply not_true_iff_false in Hbox. apply Hbox. apply in_box_true. lia.
Qed.

(** X4.  The pixelate method on a region that starts inside the frame and
    reaches past its right or bottom edge, with an intensity that fits the
    region: both resizes succeed, the enlarged image has the full size
    [h] x [w] while the slice is clipped to the frame, and the assignment of
    line 124 raises [ValueError]; the frame is left as it was. *)
Theorem pixelate_past_edge_raises image x y w h intensity (s : store) (frame : ndarray)
    (Hframe : s !! image = Some frame) (Hchans : (0 < chans frame)%nat)
    (Hx : 0 <= x < Z.of_nat (cols frame)) (Hy : 0 <= y < Z.of_nat (rows frame))
    (Hw : 0 < intensity <= w) (Hh : intensity <= h)
    (Hpast : Z.of_nat (cols frame) < x + w \/ Z.of_nat (rows frame) < y + h) :
  exists s',
    anonymize_face image x y w h "pixelate" intensity s = (s', Raise ValueError) /\
    s' !! image = Some frame.
Proof.
  assert (Hlt : (image < length s)%nat) by (eapply lookup_lt_Some; eauto).
  assert (Hget : s !!! image = frame) by (apply list_lookup_total_correct; exact Hframe).
  assert (Hdw : 0 < w / intensity) by (apply Z.div_str_pos; lia).
  assert (Hdh : 0 < h / intensity) by (apply Z.div_str_pos; lia).
  assert (Hne : (intensity =? 0) = false) by (apply Z.eqb_neq; lia).
  assert (Hrb : slice_bounds (rows frame) y (y + h) =
                (Z.to_nat y, Z.to_nat (Z.min (y + h) (Z.of_nat (rows frame))))).
  { rewrite slice_bounds_clip by lia. f_equal. f_equal. lia. }
  assert (Hcb : slice_bounds (cols frame) x (x + w) =
                (Z.to_nat x, Z.to_nat (Z.min (x + w) (Z.of_nat (cols frame))))).
  { rewrite slice_bounds_clip by lia. f_equal. f_equal. lia. }
  destruct (getitem_region_of image x y w h s) as (v & Hv & Hval).
  unfold region_of in Hval. rewrite Hget in Hval.
  set (small := resized INTER_LINEAR (region_view frame x y w h)
                  (w / intensity) (h / intensity)).
  set (big := resized INTER_NEAREST small w h).
  assert (Hsmall : cv2_resize v (w / intensity, h / intensity) INTER_LINEAR s
                   = (s ++ [small], Ok (Whole (length s)))).
  { assert (Hfull : is_empty (value_of s v) = false).
    { rewrite Hval. unfold region_view. rewrite Hrb, Hcb.
      apply is_empty_false; cbn [fst snd view_of rows cols chans]; lia. }
    rewrite (cv2_resize_ok _ _ _ _ _ Hfull Hdw Hdh), Hval. reflexivity. }
  assert (Hbig : cv2_resize (Whole (length s)) (w, h) INTER_NEAREST (s ++ [small])
                 = ((s ++ [small]) ++ [big], Ok (Whole (length (s ++ [small]))))).
  { assert (Hfull : is_empty (value_of (s ++ [small]) (Whole (length s))) = false).
    { rewrite value_of_fresh. apply is_empty_false; simpl; lia. }
    rewrite (cv2_resize_ok _ _ _ _ _ Hfull) by lia. rewrite value_of_fresh. reflexivity. }
  assert (Hbranch :
    (dw ← floordiv w intensity; dh ← floordiv h intensity;
     small_face ← cv2_resize v (dw, dh) INTER_LINEAR;
     cv2_resize small_face (w, h) INTER_NEAREST) s
    = ((s ++ [small]) ++ [big], Ok (Whole (length (s ++ [small]))))).
  { unfold floordiv. rewrite Hne.
    rewrite (bind_ok _ _ s s (w / intensity)) by reflexivity.
    rewrite (bind_ok _ _ s s (h / intensity)) by reflexivity.
    rewrite (bind_ok _ _ _ _ _ Hsmall). exact Hbig. }
  assert (Hset : setitem image (y, y + h) (x, x + w) (Whole (length (s ++ [small])))
                   ((s ++ [small]) ++ [big])
                 = ((s ++ [small]) ++ [big], Raise ValueError)).
  { unfold setitem. cbn [fst snd]. rewrite value_of_fresh.
    assert (Himg : ((s ++ [small]) ++ [big]) !!! image = frame).
    { rewrite !lookup_total_app_l; [exact Hget | exact Hlt | rewrite length_app; lia]. }
    rewrite Himg, Hrb, Hcb. cbn [fst snd].
    assert (Hno : broadcast_dim (rows big)
                    (Z.to_nat (Z.min (y + h) (Z.of_nat (rows frame))) - Z.to_nat y)
                  && broadcast_dim (cols big)
                    (Z.to_nat (Z.min (x + w) (Z.of_nat (cols frame))) - Z.to_nat x)
                  = false).
    { unfold broadcast_dim. cbn [big resized rows cols].
      destruct Hpast as [Hcols | Hrows].
      - apply andb_false_iff. right. apply orb_false_iff.
        split; apply Nat.eqb_neq; lia.
      - apply andb_false_iff. left. apply orb_false_iff.
        split; apply Nat.eqb_neq; lia. }
    rewrite Hno. reflexivity. }
  unfold anonymize_face.
  change (String.eqb "pixelate" "blur") with false.
  change (String.eqb "pixelate" "pixelate") with true.
  rewrite (bind_ok _ _ _ _ _ Hv), (bind_ok _ _ _ _ _ Hbranch).
  unfold bind. rewrite Hset.
  eexists. split; [reflexivity|].
  rewrite !lookup_app_l; [exact Hframe | exact Hlt | rewrite length_app; lia].
Qed.

(** X5.  Intensity 0 with the pixelate method, when DeepFace answers (its
    coordinates are Python integers): as soon as a detection reports a
    region, line 112 divides by zero and [process_image] raises
    [ZeroDivisionError], before anything is written to the frame or added to
    the store; when no detection reports a region it returns the frame and
    the count 0. *)
Theorem pixelate_zero_intensity image_array (s : store) faces
    (Hfaces : extract_faces (s !!! image_array) "retinaface" false false = Ok faces) :
  process_image image_array "pixelate" 0 s =
    (s, match reported_regions faces with
        | [] => Ok (image_array, 0)
        | _ :: _ => Raise ZeroDivisionError
        end).
Proof.
  assert (Hdetect : detect_faces_deepface image_array s
                    = (s, Ok (reported_regions faces))).
  { rewrite detect_faces_deepface_run, Hfaces, face_locations_reported. reflexivity. }
  unfold process_image. rewrite (bind_ok _ _ _ _ _ Hdetect).
  destruct (reported_regions faces) as [|[[[x y] w] h] rest]; reflexivity.
Qed.

(** ** The video pipeline, frame by frame *)

Lemma store_kept_refl (s : store) : store_kept s s.
Proof. intros r a Ha. exact Ha. Qed.

Lemma store_kept_trans (s s1 s2 : store) :
  store_kept s s1 -> store_kept s1 s2 -> store_kept s s2.
Proof. intros H1 H2 r a Ha. apply H2, H1, Ha. Qed.

Lemma store_kept_app (s extra : store) : store_kept s (s ++ extra).
Proof. intros r a Ha. apply lookup_app_l_Some. exact Ha. Qed.

(** One turn of the loop on a decoded frame: the copy is processed, the
    decoded frame and everything older stay as they were. *)
Lemma frame_step (s : store) decoded method intensity s2 r :
  (copied ← np_copy (Whole (length s)); process_image copied method intensity)
    (s ++ [decoded]) = (s2, r) ->
  store_kept (s ++ [decoded]) s2 /\
  forall processed_frame n, r = Ok (processed_frame, n) ->
    shape (s2 !!! processed_frame) = shape decoded /\ 0 <= n.
Proof.
  intros Hrun.
  rewrite (bind_ok _ _ _ _ (length (s ++ [decoded])) eq_refl) in Hrun.
  rewrite value_of_fresh in Hrun.
  apply process_image_outcome in Hrun
    as ((Hlen & Hshape & Hother) & regions & _ & Hres);
    [|rewrite !length_app; simpl; lia].
  split.
  - intros k a Ha. pose proof (lookup_lt_Some _ _ _ Ha) as Hk.
    rewrite Hother; [apply lookup_app_l_Some; exact Ha | rewrite length_app; simpl; lia | lia].
  - intros pf n ->. destruct (Hres pf n eq_refl) as [-> ->].
    rewrite Hshape. split; [|lia]. f_equal.
    rewrite lookup_total_app_r by lia. rewrite Nat.sub_diag. reflexivity.
Qed.

Lemma video_loop_frames frames : forall cap total_frames method intensity frame_count
    total_faces out (s : store) st res,
  video_loop frames cap total_frames method intensity frame_count total_faces out s
    = (st, res) ->
  store_kept s (vs_store st) /\
  exists written,
    out_frames (vs_out st) = out_frames out ++ written /\
    Forall2 (fun f g => shape g = shape f) (take (length written) frames) written /\
    forall total_faces' frame_count', res = Ok (total_faces', frame_count') ->
      length written = length frames /\
      Forall (fun f => f ∈ vs_store st) frames /\
      total_faces <= total_faces'.
Proof.
  induction frames as [|decoded rest IH];
    intros cap total_frames method intensity frame_count total_faces out s st res Hrun.
  - injection Hrun as <- <-. split; [apply store_kept_refl|].
    exists []. cbn. rewrite app_nil_r. split; [reflexivity|]. split; [constructor|].
    intros tf' fc' [= <- _]. split; [reflexivity|]. split; [constructor | lia].
  - cbn [video_loop] in Hrun.
    destruct ((copied ← np_copy (Whole (length s)); process_image copied method intensity)
                (s ++ [decoded])) as [s2 r] eqn:Hstep.
    apply frame_step in Hstep as [Hkept Hok].
    assert (Hkept0 : store_kept s s2).
    { eapply store_kept_trans; [apply store_kept_app | exact Hkept]. }
    destruct r as [[processed_frame faces_count]|e].
    + destruct (Hok _ _ eq_refl) as [Hshape Hcount].
      destruct (((frame_count + 1) `mod` 10 =? 0) && (total_frames =? 0)).
      * injection Hrun as <- <-. split; [exact Hkept0|].
        exists [s2 !!! processed_frame]. cbn. split; [reflexivity|].
        split; [constructor; [exact Hshape | constructor]|]. discriminate.
      * apply IH in Hrun as (Hkept2 & written & Hout & Hshapes & Hres).
        split; [eapply store_kept_trans; eauto|].
        exists ((s2 !!! processed_frame) :: written). cbn [out_write out_frames] in Hout.
        split; [rewrite Hout, <- app_assoc; reflexivity|].
        split; [cbn; constructor; assumption|].
        intros tf' fc' Hres'. destruct (Hres _ _ Hres') as (Hlen & Hin & Htf).
        split; [cbn; lia|]. split; [|lia].
        constructor; [|exact Hin].
        apply list_elem_of_lookup. exists (length s). apply Hkept2, Hkept.
        rewrite lookup_app_r by lia. rewrite Nat.sub_diag. reflexivity.
    + injection Hrun as <- <-. split; [exact Hkept0|].
      exists []. cbn. rewrite app_nil_r. repeat split; try constructor; discriminate.
Qed.

Lemma video_loop_processed frames : forall cap total_frames method intensity
    frame_count total_faces out (s : store) st res,
  video_loop frames cap total_frames method intensity frame_count total_faces out s
    = (st, res) ->
  exists written total s_end,
    out_frames (vs_out st) = out_frames out ++ written /\
    frames_processed method intensity s (take (length written) frames)
      written total s_end /\
    forall total_faces' frame_count', res = Ok (total_faces', frame_count') ->
      s_end = vs_store st /\ total_faces' = total_faces + total.
Proof.
  induction frames as [|decoded rest IH];
    intros cap total_frames method intensity frame_count total_faces out s st res Hrun.
  - injection Hrun as <- <-. exists [], 0, s. cbn. rewrite app_nil_r.
    split; [reflexivity|]. split; [constructor|].
    intros tf' fc' [= <- _]. split; [reflexivity | lia].
  - cbn [video_loop] in Hrun.
    rewrite (bind_ok _ _ _ _ (length (s ++ [decoded])) eq_refl) in Hrun.
    rewrite value_of_fresh in Hrun.
    destruct (process_image (length (s ++ [decoded])) method intensity
                ((s ++ [decoded]) ++ [decoded]))
      as [s2 [[processed_frame faces_count]|e]] eqn:Hstep.
    + destruct (((frame_count + 1) `mod` 10 =? 0) && (total_frames =? 0)).
      * injection Hrun as <- <-. exists [s2 !!! processed_frame], (faces_count + 0), s2.
        cbn. split; [reflexivity|].
        split; [econstructor; [exact Hstep | constructor]|]. discriminate.
      * apply IH in Hrun as (written & total & s_end & Hout & Hproc & Hres).
        exists (s2 !!! processed_frame :: written), (faces_count + total), s_end.
        cbn [out_write out_frames] in Hout.
        split; [rewrite Hout, <- app_assoc; reflexivity|].
        split; [cbn; econstructor; [exact Hstep | exact Hproc]|].
        intros tf' fc' Hok. destruct (Hres _ _ Hok) as [-> ->]. split; [reflexivity | lia].
    + injection Hrun as <- <-. exists [], 0, s. cbn. rewrite app_nil_r.
      split; [reflexivity|]. split; [constructor | discriminate].
Qed.

(** X6.  Frames through [process_video], on an opened capture and however
    the call ends: every object that was in the store is left as it was;
    the frames written are, in order, the processed versions of as many of
    the first input frames: each is what [process_image] left in the copy
    of its input frame, and has the shape of that frame.  When the call
    returns, every input frame was written, every decoded frame is still in
    the store as it was decoded (the processing works on a copy), and the
    face total is the sum of the counts [process_image] returned, which is
    not negative. *)
Theorem process_video_frames cap method intensity (s : store) st res
    (Hopen : isOpened cap = true)
    (Hrun : process_video cap method intensity s = (st, res)) :
  store_kept s (vs_store st) /\
  Forall2 (fun f g => shape g = shape f)
    (take (length (out_frames (vs_out st))) (cap_frames cap)) (out_frames (vs_out st)) /\
  (exists total s_end,
     frames_processed method intensity s
       (take (length (out_frames (vs_out st))) (cap_frames cap))
       (out_frames (vs_out st)) total s_end /\
     forall total_faces frame_count, res = Ok (total_faces, frame_count) ->
       s_end = vs_store st /\ total_faces = total) /\
  forall total_faces frame_count, res = Ok (total_faces, frame_count) ->
    length (out_frames (vs_out st)) = length (cap_frames cap) /\
    Forall (fun f => f ∈ vs_store st) (cap_frames cap) /\
    0 <= total_faces.
Proof.
  unfold process_video in Hrun. rewrite Hopen in Hrun.
  destruct (video_loop _ _ _ _ _ _ _ _ _) as [st1 r1] eqn:Hloop.
  pose proof (video_loop_processed _ _ _ _ _ _ _ _ _ _ _ Hloop)
    as (written' & total & s_end & Hout' & Hproc & Hsum).
  apply video_loop_frames in Hloop as (Hkept & written & Hout & Hshapes & Hres).
  cbn [VideoWriter out_frames app] in Hout, Hout'.
  rewrite Hout' in Hout. subst written'.
  destruct r1 as [[tf fc]|e]; injection Hrun as <- <-;
    cbn [vs_store vs_out out_release out_frames]; rewrite Hout'.
  - split; [exact Hkept|]. split; [exact Hshapes|]. split.
    + exists total, s_end. split; [exact Hproc|].
      intros tf' fc' [= <- <-]. destruct (Hsum _ _ eq_refl) as [-> ->].
      split; [reflexivity | lia].
    + intros tf' fc' [= <- <-]. exact (Hres _ _ eq_refl).
  - split; [exact Hkept|]. split; [exact Hshapes|]. split.
    + exists total, s_end. split; [exact Hproc | discriminate].
    + discriminate.
Qed.

(** A turn of the loop with a method that never raises. *)
Lemma frame_step_quiet (s : store) decoded method intensity :
  quiet method ->
  exists s2 n,
    (copied ← np_copy (Whole (length s)); process_image copied method intensity)
      (s ++ [decoded]) = (s2, Ok (length (s ++ [decoded]), n)).
Proof.
  intros Hq.
  destruct (process_image_quiet (length (s ++ [decoded])) method intensity
              ((s ++ [decoded]) ++ [value_of (s ++ [decoded]) (Whole (length s))]) Hq)
    as (s2 & n & Hproc); [rewrite !length_app; simpl; lia|].
  exists s2, n. rewrite (bind_ok _ _ _ _ (length (s ++ [decoded])) eq_refl). exact Hproc.
Qed.

Lemma mod10_next fc : 0 <= fc -> fc `mod` 10 < 9 -> (fc + 1) `mod` 10 = fc `mod` 10 + 1.
Proof.
  intros Hfc Hlt. pose proof (Z.mod_pos_bound fc 10 ltac:(lia)) as Hb.
  rewrite Z.add_mod by lia. rewrite (Z.mod_small 1 10) by lia.
  apply Z.mod_small. lia.
Qed.

Lemma mod10_wrap fc : 0 <= fc -> fc `mod` 10 = 9 -> (fc + 1) `mod` 10 = 0.
Proof.
  intros Hfc H9. rewrite Z.add_mod by lia. rewrite H9. reflexivity.
Qed.

(** The loop on a container that reports 0 frames, [S n] frames before
    the count reaches a multiple of 10. *)
Lemma video_loop_zero_total method intensity : quiet method ->
  forall n frames cap frame_count total_faces out (s : store),
  0 <= frame_count -> frame_count `mod` 10 + Z.of_nat (S n) = 10 ->
  (S n <= length frames)%nat ->
  exists st,
    video_loop frames cap 0 method intensity frame_count total_faces out s
      = (st, Raise ZeroDivisionError) /\
    length (out_frames (vs_out st)) = (length (out_frames out) + S n)%nat /\
    cap_frames (vs_cap st) = drop (S n) frames.
Proof.
  intros Hq. induction n as [|n IH];
    intros frames cap frame_count total_faces out s Hfc Hmod Hlen;
    destruct frames as [|decoded rest]; cbn [length] in Hlen; try lia;
    cbn [video_loop];
    destruct (frame_step_quiet s decoded method intensity Hq) as (s2 & k & ->).
  - rewrite mod10_wrap by lia. cbn [Z.eqb andb].
    eexists. split; [reflexivity|]. cbn [vs_out vs_cap out_write out_frames
      cap_with_frames cap_frames]. rewrite length_app. split; [simpl; lia | reflexivity].
  - assert (Hnext : (frame_count + 1) `mod` 10 = frame_count `mod` 10 + 1)
      by (apply mod10_next; lia).
    assert (Hno : ((frame_count + 1) `mod` 10 =? 0) = false).
    { apply Z.eqb_neq. pose proof (Z.mod_pos_bound frame_count 10 ltac:(lia)). lia. }
    rewrite Hno. cbn [andb].
    destruct (IH rest (cap_with_frames cap rest) (frame_count + 1) (total_faces + k)
                (out_write out (s2 !!! length (s ++ [decoded]))) s2)
      as (st & Hrun & Hwritten & Hleft); [lia | lia | lia |].
    exists st. split; [exact Hrun|].
    cbn [out_write out_frames] in Hwritten. rewrite length_app in Hwritten.
    split; [simpl in *; lia | exact Hleft].
Qed.

(** X7.  A container that reports a frame count of 0 and holds at least
    ten frames, processed with a method that raises on no frame (mask or an
    unrecognized one): the progress line 170 divides by zero when the tenth
    frame has been written.  [process_video] raises [ZeroDivisionError]
    with exactly ten frames written and ten frames read, and neither handle
    released. *)
Theorem process_video_zero_frame_count cap method intensity (s : store)
    (Hquiet : quiet method) (Hopen : isOpened cap = true)
    (Htotal : cap_total cap = 0) (Hten : (10 <= length (cap_frames cap))%nat) :
  exists st,
    process_video cap method intensity s = (st, Raise ZeroDivisionError) /\
    length (out_frames (vs_out st)) = 10%nat /\
    cap_frames (vs_cap st) = drop 10 (cap_frames cap) /\
    cap_released (vs_cap st) = false /\
    out_released (vs_out st) = false.
Proof.
  assert (Hopened : cap_opened cap = true /\ cap_released cap = false).
  { unfold isOpened in Hopen. apply andb_true_iff in Hopen as [Ho Hr].
    split; [exact Ho|]. destruct (cap_released cap); [discriminate | reflexivity]. }
  destruct Hopened as [Hopened Hfresh].
  pose proof (process_video_release cap method intensity s) as Hrel.
  unfold process_video in *. rewrite Hopen in *.
  unfold cap_get, CAP_PROP_FRAME_COUNT in *. rewrite Hopened, Htotal, py_int_inject_Z in *.
  destruct (video_loop_zero_total method intensity Hquiet 9 (cap_frames cap) cap 0 0
              (VideoWriter "mp4v" (py_int (CAP_PROP_FPS cap))
                 (py_int (CAP_PROP_FRAME_WIDTH cap), py_int (CAP_PROP_FRAME_HEIGHT cap))) s)
    as (st & Hrun & Hwritten & Hleft); [lia | reflexivity | exact Hten |].
  rewrite Hrun in *. exists st. split; [reflexivity|].
  split; [exact Hwritten|]. split; [exact Hleft|].
  destruct Hrel as [Hcap Hout]. rewrite Hcap. split; [exact Hfresh | exact Hout].
Qed.

Lemma video_loop_returns_short method intensity frames :
  quiet method ->
  forall cap frame_count total_faces out (s : store),
  0 <= frame_count -> frame_count + Z.of_nat (length frames) < 10 ->
  exists st total_faces',
    video_loop frames cap 0 method intensity frame_count total_faces out s
      = (st, Ok (total_faces', frame_count + Z.of_nat (length frames))).
Proof.
  intros Hq. induction frames as [|decoded rest IH];
    intros cap frame_count total_faces out s Hfc Hshort.
  - eexists _, _. simpl. rewrite Z.add_0_r. reflexivity.
  - cbn [video_loop length] in *.
    destruct (frame_step_quiet s decoded method intensity Hq) as (s2 & k & ->).
    assert (Hno : ((frame_count + 1) `mod` 10 =? 0) = false).
    { apply Z.eqb_neq. rewrite Z.mod_small by lia. lia. }
    rewrite Hno. cbn [andb].
    destruct (IH (cap_with_frames cap rest) (frame_count + 1) (total_faces + k)
                (out_write out (s2 !!! length (s ++ [decoded]))) s2)
      as (st & tf & Hrest); [lia | lia |].
    exists st, tf. rewrite Hrest. do 3 f_equal. lia.
Qed.

(** X8.  With the mask method or an unrecognized one, on an opened
    capture whose container reports a frame count other than 0, or holds
    fewer than ten frames: [process_video] returns, the count is the number
    of frames the capture held, all of them were read and written, and both
    handles are released. *)
Theorem process_video_quiet_returns cap method intensity (s : store)
    (Hquiet : quiet method) (Hopen : isOpened cap = true)
    (Hcount : cap_total cap <> 0 \/ (length (cap_frames cap) < 10)%nat) :
  exists st total_faces,
    process_video cap method intensity s
      = (st, Ok (total_faces, Z.of_nat (length (cap_frames cap)))) /\
    cap_frames (vs_cap st) = [] /\
    length (out_frames (vs_out st)) = length (cap_frames cap) /\
    cap_released (vs_cap st) = true /\
    out_released (vs_out st) = true.
Proof.
  assert (Hopened : cap_opened cap = true).
  { unfold isOpened in Hopen. apply andb_true_iff in Hopen. tauto. }
  assert (Hloop : exists st tf,
    video_loop (cap_frames cap) cap (cap_total cap) method intensity 0 0
      (VideoWriter "mp4v" (py_int (CAP_PROP_FPS cap))
         (py_int (CAP_PROP_FRAME_WIDTH cap), py_int (CAP_PROP_FRAME_HEIGHT cap))) s
      = (st, Ok (tf, Z.of_nat (length (cap_frames cap))))).
  { destruct (Z.eq_dec (cap_total cap) 0) as [Hzero | Hnz].
    - destruct Hcount as [Hnz | Hshort]; [contradiction|]. rewrite Hzero.
      apply video_loop_returns_short; [exact Hquiet | lia | lia].
    - apply (video_loop_returns method intensity (cap_total cap) (cap_frames cap)
               Hquiet Hnz cap 0 0). }
  destruct Hloop as (st & tf & Hloop).
  pose proof (video_loop_ok _ _ _ _ _ _ _ _ _ _ _ _ Hloop)
    as (_ & Hleft & _ & _ & _ & _ & Hwritten).
  unfold process_video. rewrite Hopen.
  unfold cap_get, CAP_PROP_FRAME_COUNT. rewrite Hopened.
  rewrite (py_int_inject_Z (cap_total cap)), Hloop.
  eexists _, _. split; [reflexivity|].
  cbn [vs_cap vs_out cap_release out_release cap_frames out_frames cap_released
       out_released VideoWriter length] in *.
  repeat split; try assumption.
Qed.

(** X9.  A capture that could not be opened: [process_video] reads
    nothing and does not fail; it returns 0 faces and 0 frames, the writer
    was created with frame rate 0 and size (0, 0) and got no frame, the
    store is untouched and both handles are released. *)
Theorem process_video_unopened cap method intensity (s : store)
    (Hclosed : cap_opened cap = false) :
  exists st,
    process_video cap method intensity s = (st, Ok (0, 0)) /\
    vs_store st = s /\
    out_fps (vs_out st) = 0 /\ out_size (vs_out st) = (0, 0) /\
    out_frames (vs_out st) = [] /\
    cap_frames (vs_cap st) = cap_frames cap /\
    cap_released (vs_cap st) = true /\ out_released (vs_out st) = true.
Proof.
  unfold process_video, isOpened, cap_get. rewrite Hclosed. cbn [andb].
  eexists. split; [reflexivity|]. repeat split.
Qed.

(** ** Several regions on one frame *)

Lemma mask_step image x y w h intensity (s : store) frame :
  s !! image = Some frame -> 0 <= x -> 0 <= y -> 0 <= w -> 0 <= h ->
  exists s' frame',
    anonymize_face image x y w h "mask" intensity s = (s', Ok image) /\
    s' !! image = Some frame' /\ shape frame' = shape frame /\
    forall i j c, (i < rows frame)%nat -> (j < cols frame)%nat ->
      px frame' i j c = if covered [(x, y, w, h)] i j then 0 else px frame i j c.
Proof.
  intros Hframe Hx Hy Hw Hh.
  assert (Hlt : (image < length s)%nat) by (eapply lookup_lt_Some; eauto).
  assert (Hget : s !!! image = frame) by (apply list_lookup_total_correct; exact Hframe).
  rewrite (anonymize_face_mask_run _ _ _ _ _ _ _ Hlt). cbv zeta. rewrite Hget.
  eexists _, _. split; [reflexivity|].
  split; [apply list_lookup_insert_eq; rewrite length_app; lia|].
  split; [reflexivity|]. intros i j c Hi Hj.
  unfold assign_region. rewrite !slice_bounds_clip by assumption.
  cbn [fst snd assign px covered existsb]. rewrite orb_false_r.
  destruct (in_box _ _ _ _ i j) eqn:Hbox.
  - apply in_box_true in Hbox.
    assert (Hcov : (y <=? Z.of_nat i) && (Z.of_nat i <? y + h) &&
                   (x <=? Z.of_nat j) && (Z.of_nat j <? x + w) = true).
    { rewrite !andb_true_iff, !Z.leb_le, !Z.ltb_lt. lia. }
    rewrite Hcov. reflexivity.
  - destruct ((y <=? Z.of_nat i) && (Z.of_nat i <? y + h) &&
              (x <=? Z.of_nat j) && (Z.of_nat j <? x + w)) eqn:Hcov; [|reflexivity].
    rewrite !andb_true_iff, !Z.leb_le, !Z.ltb_lt in Hcov.
    apply not_true_iff_false in Hbox. exfalso. apply Hbox. apply in_box_true. lia.
Qed.

Lemma covered_cons r rest i j :
  covered (r :: rest) i j = covered [r] i j || covered rest i j.
Proof. unfold covered. cbn [existsb]. rewrite orb_false_r. reflexivity. Qed.

Lemma mask_all image intensity regions : forall (s : store) frame,
  s !! image = Some frame -> Forall region_nonneg regions ->
  exists s' frame',
    anonymize_all image regions "mask" intensity s = (s', Ok image) /\
    s' !! image = Some frame' /\ shape frame' = shape frame /\
    forall i j c, (i < rows frame)%nat -> (j < cols frame)%nat ->
      px frame' i j c = if covered regions i j then 0 else px frame i j c.
Proof.
  induction regions as [|[[[x y] w] h] rest IH]; intros s frame Hframe Hall.
  - exists s, frame. repeat split; try assumption; reflexivity.
  - apply Forall_cons in Hall as [(Hx & Hy & Hw & Hh) Hrest].
    destruct (mask_step image x y w h intensity s frame Hframe Hx Hy Hw Hh)
      as (s1 & frame1 & Hface & Hframe1 & Hshape1 & Hpx1).
    destruct (IH s1 frame1 Hframe1 Hrest) as (s2 & frame2 & Hall2 & Hframe2 & Hshape2 & Hpx2).
    exists s2, frame2. cbn [anonymize_all]. rewrite (bind_ok _ _ _ _ _ Hface).
    split; [exact Hall2|]. split; [exact Hframe2|]. split; [congruence|].
    intros i j c Hi Hj.
    assert (Hrows : rows frame1 = rows frame) by exact (f_equal (fun p => p.1.1) Hshape1).
    assert (Hcols : cols frame1 = cols frame) by exact (f_equal (fun p => p.1.2) Hshape1).
    rewrite Hpx2 by lia. rewrite Hpx1 by assumption.
    rewrite (covered_cons (x, y, w, h) rest).
    destruct (covered rest i j);
      [rewrite orb_true_r | rewrite orb_false_r]; reflexivity.
Qed.

(** X10.  [process_image] with the mask method, on a frame for which the
    locator returns regions without negative coordinates or sizes: the call
    returns the frame and the number of regions; a pixel of the frame is
    zero when it lies in one of the regions, however they overlap or reach
    past the frame, and keeps its value otherwise. *)
Theorem process_image_masks_all_regions image_array intensity (s : store) frame regions
    (Hframe : s !! image_array = Some frame)
    (Hdetect : snd (detect_faces_deepface image_array s) = Ok regions)
    (Hregions : Forall region_nonneg regions) :
  exists s',
    process_image image_array "mask" intensity s
      = (s', Ok (image_array, Z.of_nat (length regions))) /\
    shape (s' !!! image_array) = shape frame /\
    forall i j c, (i < rows frame)%nat -> (j < cols frame)%nat ->
      px (s' !!! image_array) i j c =
        if covered regions i j then 0 else px frame i j c.
Proof.
  pose proof (detect_faces_deepface_lookup _ _ _ Hframe) as Hkept.
  destruct (detect_faces_deepface image_array s) as [s1 r] eqn:Hdet.
  cbn [fst snd] in *. subst r.
  destruct (mask_all image_array intensity regions s1 frame Hkept Hregions)
    as (s2 & frame2 & Hall & Hframe2 & Hshape & Hpx).
  exists s2. unfold process_image.
  rewrite (bind_ok _ _ _ _ _ Hdet), (bind_ok _ _ _ _ _ Hall).
  rewrite (list_lookup_total_correct _ _ _ Hframe2).
  split; [reflexivity|]. split; [exact Hshape | exact Hpx].
Qed.

Lemma unrecognized_all image method intensity regions :
  recognized method = false -> forall (s : store),
  exists s',
    anonymize_all image regions method intensity s = (s', Ok image) /\
    length s' = length s /\
    shape (s' !!! image) = shape (s !!! image) /\
    forall i j c, (c < chans (s !!! image))%nat ->
      px (s' !!! image) i j c = px (s !!! image) i j c.
Proof.
  intros Hm. induction regions as [|[[[x y] w] h] rest IH]; intros s.
  - exists s. repeat split; reflexivity.
  - pose proof (anonymize_face_unrecognized_run image x y w h method intensity s Hm)
      as Hface.
    destruct (IH (<[image := assign_region (s !!! image) x y w h
                               (region_of s image x y w h)]> s))
      as (s2 & Hrest & Hlen & Hshape & Hpx).
    exists s2. cbn [anonymize_all]. rewrite (bind_ok _ _ _ _ _ Hface).
    split; [exact Hrest|]. rewrite length_insert in Hlen. split; [exact Hlen|].
    rewrite store_insert_lookup in Hshape, Hpx.
    destruct (decide (image = image /\ (image < length s)%nat)) as [_ | _].
    + split; [exact Hshape|]. intros i j c Hc.
      rewrite Hpx by exact Hc. apply assign_own_view. exact Hc.
    + split; [exact Hshape | exact Hpx].
Qed.

(** X11.  [process_image] with a method that is none of blur, pixelate
    and mask: the call returns, the count is the number of regions the
    locator returned, and no pixel of the frame has changed; the faces are
    counted and left as they are. *)
Theorem process_image_unrecognized_counts image_array method intensity (s : store)
    frame regions
    (Hmethod : recognized method = false)
    (Hframe : s !! image_array = Some frame)
    (Hdetect : snd (detect_faces_deepface image_array s) = Ok regions) :
  exists s',
    process_image image_array method intensity s
      = (s', Ok (image_array, Z.of_nat (length regions))) /\
    shape (s' !!! image_array) = shape frame /\
    forall i j c, (c < chans frame)%nat ->
      px (s' !!! image_array) i j c = px frame i j c.
Proof.
  pose proof (detect_faces_deepface_lookup _ _ _ Hframe) as Hkept.
  destruct (detect_faces_deepface image_array s) as [s1 r] eqn:Hdet.
  cbn [fst snd] in *. subst r.
  destruct (unrecognized_all image_array method intensity regions Hmethod s1)
    as (s2 & Hall & _ & Hshape & Hpx).
  rewrite (list_lookup_total_correct _ _ _ Hkept) in Hshape, Hpx.
  exists s2. unfold process_image.
  rewrite (bind_ok _ _ _ _ _ Hdet), (bind_ok _ _ _ _ _ Hall).
  split; [reflexivity|]. split; [exact Hshape | exact Hpx].
Qed.

(** X12.  The blur method on a region inside the frame, when
    [cv2.GaussianBlur] returns an image of the size of its source, as
    OpenCV does: the call returns the frame, the region holds the blurred
    image pixel for pixel, and the pixels outside the region are as they
    were.  The kernel passed is [kernel_size intensity] in both
    directions. *)
Theorem blur_writes_blurred_region image x y w h intensity (s : store) frame blurred
    (Hframe : s !! image = Some frame) (Hin : inside frame x y w h)
    (Hblur : GaussianBlur (region_view frame x y w h)
               (kernel_size intensity, kernel_size intensity) 0 = Ok blurred)
    (Hsize : shape blurred = shape (region_view frame x y w h)) :
  exists s',
    anonymize_face image x y w h "blur" intensity s = (s', Ok image) /\
    shape (s' !!! image) = shape frame /\
    forall i j c, (i < rows frame)%nat -> (j < cols frame)%nat -> (c < chans frame)%nat ->
      px (s' !!! image) i j c =
        if decide (y <= Z.of_nat i < y + h /\ x <= Z.of_nat j < x + w)
        then px blurred (i - Z.to_nat y) (j - Z.to_nat x) c
        else px frame i j c.
Proof.
  assert (Hlt : (image < length s)%nat) by (eapply lookup_lt_Some; eauto).
  assert (Hget : s !!! image = frame) by (apply list_lookup_total_correct; exact Hframe).
  destruct (getitem_region_of image x y w h s) as (v & Hv & Hval).
  unfold region_of in Hval. rewrite Hget in Hval.
  assert (Hcall : cv2_GaussianBlur v (kernel_size intensity, kernel_size intensity) 0 s
                  = (s ++ [blurred], Ok (Whole (length s)))).
  { unfold cv2_GaussianBlur, call_new. rewrite Hval, Hblur. reflexivity. }
  pose proof (region_view_shape _ _ _ _ _ Hin) as Hview. rewrite Hview in Hsize.
  unfold shape in Hsize. injection Hsize as Hrows Hcols Hk.
  assert (Hset : setitem image (y, y + h) (x, x + w) (Whole (length s)) (s ++ [blurred])
                 = (<[image := assign_region frame x y w h blurred]> (s ++ [blurred]),
                    Ok ())).
  { unfold setitem. cbn [fst snd]. rewrite value_of_fresh.
    rewrite lookup_total_app_l by exact Hlt. rewrite Hget.
    rewrite (inside_rows _ _ _ _ _ Hin), (inside_cols _ _ _ _ _ Hin). cbn [fst snd].
    destruct Hin as (Hx & Hy & Hw & Hh & Hr & Hb).
    replace (Z.to_nat (y + h) - Z.to_nat y)%nat with (rows blurred) by lia.
    replace (Z.to_nat (x + w) - Z.to_nat x)%nat with (cols blurred) by lia.
    rewrite <- Hk, !broadcast_dim_refl. unfold assign_region.
    rewrite !slice_bounds_inside by lia. reflexivity. }
  unfold anonymize_face. change (String.eqb "blur" "blur") with true.
  rewrite (bind_ok _ _ _ _ _ Hv), (bind_ok _ _ _ _ _ Hcall), (bind_ok _ _ _ _ _ Hset).
  eexists. split; [reflexivity|].
  rewrite list_lookup_total_insert_eq by (rewrite length_app; lia).
  split; [reflexivity|]. intros i j c Hi Hj Hc.
  rewrite assign_region_px by exact Hin.
  destruct Hin as (Hx & Hy & Hw & Hh & Hr & Hb).
  destruct (decide _) as [Hbox | _]; [|reflexivity].
  unfold bidx.
  assert (E1 : (rows blurred =? 1)%nat = true -> (i - Z.to_nat y = 0)%nat)
    by (intros E; apply Nat.eqb_eq in E; lia).
  assert (E2 : (cols blurred =? 1)%nat = true -> (j - Z.to_nat x = 0)%nat)
    by (intros E; apply Nat.eqb_eq in E; lia).
  assert (E3 : (if (chans blurred =? 1)%nat then 0%nat else c) = c).
  { destruct (chans blurred =? 1)%nat eqn:E; [apply Nat.eqb_eq in E; lia | reflexivity]. }
  rewrite E3.
  destruct (rows blurred =? 1)%nat; [rewrite (E1 eq_refl)|];
    (destruct (cols blurred =? 1)%nat; [rewrite (E2 eq_refl)|]); reflexivity.
Qed.

(** ** Detections and regions *)

Lemma face_location_face_at x y w h :
  face_location (face_at x y w h) = Some (x, y, w, h).
Proof.
  unfold face_location, face_at. cbn [facial_area from_option id].
  destruct (decide (_ = ∅)) as [Hempty | _].
  - exfalso. exact (insert_non_empty _ _ _ Hempty).
  - rewrite lookup_insert_eq.
    rewrite (lookup_insert_ne _ "x" "y"), lookup_insert_eq by discriminate.
    rewrite (lookup_insert_ne _ "x" "w"), (lookup_insert_ne _ "y" "w"),
      lookup_insert_eq by discriminate.
    rewrite (lookup_insert_ne _ "x" "h"), (lookup_insert_ne _ "y" "h"),
      (lookup_insert_ne _ "w" "h"), lookup_insert_eq by discriminate.
    reflexivity.
Qed.

Lemma face_locations_of_detections (coords : list region) :
  omap face_location (detection_of <$> coords) = coords.
Proof.
  induction coords as [|[[[x y] w] h] coords IH]; [reflexivity|].
  cbn [fmap list_fmap omap list_omap detection_of].
  rewrite face_location_face_at. f_equal. exact IH.
Qed.

Lemma face_locations_length (faces : list face_obj) :
  (length (omap face_location faces) <= length faces)%nat.
Proof.
  induction faces as [|face faces IH]; [reflexivity|].
  cbn [omap list_omap]. destruct (face_location face); cbn [length]; lia.
Qed.

Lemma reported_regions_length (faces : list face_obj) :
  (length (reported_regions faces) <= length faces)%nat.
Proof. rewrite <- face_locations_reported. apply face_locations_length. Qed.

(** X13.  When DeepFace answers, the locator returns without touching the
    store and without consulting the cascade detector, and what it returns
    is, for every list of detections, the regions they report: the
    detections with no facial area or an empty one are dropped, every other
    one gives its region, in the order of the detections; a facial area
    that has the four coordinates is read as [(x, y, w, h)], whatever other
    keys it has.  There are never more regions than detections. *)
Theorem locator_reads_detections image_array (s : store) faces
    (Hfaces : extract_faces (s !!! image_array) "retinaface" false false = Ok faces) :
  detect_faces_deepface image_array s = (s, Ok (reported_regions faces)) /\
  (length (reported_regions faces) <= length faces)%nat /\
  (forall area x y w h,
     area !! "x" = Some x -> area !! "y" = Some y ->
     area !! "w" = Some w -> area !! "h" = Some h ->
     area_region area = (x, y, w, h)) /\
  (forall coords : list region, reported_regions (detection_of <$> coords) = coords).
Proof.
  rewrite detect_faces_deepface_run, Hfaces, face_locations_reported.
  split; [reflexivity|]. split; [apply reported_regions_length|]. split.
  - intros area x y w h Ex Ey Ew Eh. unfold area_region.
    rewrite Ex, Ey, Ew, Eh. reflexivity.
  - intros coords. rewrite <- face_locations_reported.
    apply face_locations_of_detections.
Qed.

End FrameEffects.

(** ** The rate limiter *)

Lemma entries_insert storage ip l : entries (<[ip := l]> storage) ip = l.
Proof. unfold entries. rewrite lookup_insert_eq. reflexivity. Qed.

Lemma entries_insert_ne storage ip ip' l :
  ip <> ip' -> entries (<[ip := l]> storage) ip' = entries storage ip'.
Proof. intros Hne. unfold entries. rewrite lookup_insert_ne by exact Hne. reflexivity. Qed.

Lemma check_rate_limit_run now ip storage :
  check_rate_limit now ip storage =
    let kept := recent now (entries storage ip) in
    if RATE_LIMIT <=? Z.of_nat (length kept)
    then (<[ip := kept]> storage, false)
    else (<[ip := kept ++ [now]]> storage, true).
Proof.
  unfold check_rate_limit. cbv zeta. rewrite entries_insert.
  destruct (RATE_LIMIT <=? _); [reflexivity|]. rewrite insert_insert_eq. reflexivity.
Qed.

Lemma get_remaining_uses_run now ip storage :
  get_remaining_uses now ip storage =
    let kept := recent now (entries storage ip) in
    (<[ip := kept]> storage,
     mk_usage (Z.of_nat (length kept))
              (Z.max 0 (RATE_LIMIT - Z.of_nat (length kept))) RATE_LIMIT).
Proof. unfold get_remaining_uses. cbv zeta. rewrite entries_insert. reflexivity. Qed.

Lemma recent_length now l : (length (recent now l) <= length l)%nat.
Proof. unfold recent. apply length_filter. Qed.

Lemma within_limit_insert storage ip l :
  within_limit storage -> Z.of_nat (length l) <= RATE_LIMIT ->
  within_limit (<[ip := l]> storage).
Proof.
  intros Hst Hl ip' l' Hlook. destruct (decide (ip = ip')) as [<- | Hne].
  - rewrite lookup_insert_eq in Hlook. injection Hlook as <-. exact Hl.
  - rewrite lookup_insert_ne in Hlook by exact Hne. eapply Hst; eauto.
Qed.

Lemma within_limit_entries storage ip :
  within_limit storage -> Z.of_nat (length (entries storage ip)) <= RATE_LIMIT.
Proof.
  intros Hst. unfold entries. destruct (storage !! ip) as [l|] eqn:Hl; simpl.
  - eapply Hst; eauto.
  - unfold RATE_LIMIT. lia.
Qed.

Lemma limiter_step_within_limit storage c :
  within_limit storage -> within_limit (limiter_step storage c).
Proof.
  intros Hst. pose proof (fun ip => within_limit_entries storage ip Hst) as Hent.
  destruct c as [now ip | now ip]; cbn [limiter_step].
  - rewrite check_rate_limit_run. cbv zeta.
    pose proof (recent_length now (entries storage ip)) as Hlen. specialize (Hent ip).
    destruct (RATE_LIMIT <=? _) eqn:Hfull; cbn [fst];
      apply within_limit_insert; try exact Hst.
    + lia.
    + apply Z.leb_gt in Hfull. rewrite length_app. simpl. lia.
  - rewrite get_remaining_uses_run. cbn [fst].
    pose proof (recent_length now (entries storage ip)) as Hlen. specialize (Hent ip).
    apply within_limit_insert; [exact Hst | lia].
Qed.

(** X14.  Whatever calls of [check_rate_limit] and [get_remaining_uses]
    are made, at whatever times and for whatever addresses, starting from
    the empty storage: no address ever has more than [RATE_LIMIT] (5)
    timestamps on record. *)
Theorem limiter_never_exceeds_limit (calls : list limiter_call) :
  within_limit (foldl limiter_step ∅ calls).
Proof.
  assert (Hgen : forall storage, within_limit storage ->
                   within_limit (foldl limiter_step storage calls)).
  { induction calls as [|c calls IH]; intros storage Hst; [exact Hst|].
    cbn [foldl]. apply IH. apply limiter_step_within_limit. exact Hst. }
  apply Hgen. intros ip l Hlook. rewrite lookup_empty in Hlook. discriminate.
Qed.

Lemma recent_all now l :
  Forall (fun t => now - t < RATE_LIMIT_WINDOW) l -> recent now l = l.
Proof.
  unfold recent. induction 1 as [|t l Ht _ IH]; [reflexivity|].
  rewrite filter_cons_True by exact Ht. f_equal. exact IH.
Qed.

Lemma recent_none now l :
  Forall (fun t => RATE_LIMIT_WINDOW <= now - t) l -> recent now l = [].
Proof.
  unfold recent. induction 1 as [|t l Ht _ IH]; [reflexivity|].
  rewrite filter_cons_False by lia. exact IH.
Qed.

Lemma check_all_window ip lo : forall nows storage,
  Forall (fun t => lo <= t) (entries storage ip) ->
  (length (entries storage ip) <= 5)%nat ->
  Forall (fun now => lo <= now < lo + RATE_LIMIT_WINDOW) nows ->
  check_all ip nows storage =
    replicate (Nat.min (5 - length (entries storage ip)) (length nows)) true ++
    replicate (length nows - (5 - length (entries storage ip))) false.
Proof.
  induction nows as [|now rest IH]; intros storage Hold Hlen Hnows.
  - cbn. rewrite Nat.min_0_r. reflexivity.
  - apply Forall_cons in Hnows as [Hnow Hrest]. cbn [check_all].
    rewrite check_rate_limit_run. cbv zeta.
    rewrite recent_all by (eapply Forall_impl; [exact Hold | cbn; intros; lia]).
    destruct (RATE_LIMIT <=? Z.of_nat (length (entries storage ip))) eqn:Hfull.
    + apply Z.leb_le in Hfull. unfold RATE_LIMIT in Hfull.
      assert (Hfive : length (entries storage ip) = 5%nat) by lia.
      rewrite IH; rewrite ?entries_insert; try assumption.
      rewrite Hfive. cbn [length]. rewrite !Nat.sub_diag, !Nat.sub_0_r. reflexivity.
    + apply Z.leb_gt in Hfull. unfold RATE_LIMIT in Hfull.
      rewrite IH; rewrite ?entries_insert; try assumption.
      * rewrite length_app. cbn [length].
        replace (5 - length (entries storage ip))%nat
          with (S (5 - (length (entries storage ip) + 1)))%nat by lia.
        cbn [Nat.min replicate app]. reflexivity.
      * apply Forall_app. split; [exact Hold|]. constructor; [lia | constructor].
      * rewrite length_app. cbn [length]. lia.
Qed.

(** X15.  Requests of an address with nothing on record, at times that
    all lie within one window of a day: [check_rate_limit] accepts the first
    five and refuses every later one. *)
Theorem first_five_requests_accepted ip lo nows storage
    (Hfresh : entries storage ip = [])
    (Hwindow : Forall (fun now => lo <= now < lo + RATE_LIMIT_WINDOW) nows) :
  check_all ip nows storage =
    replicate (Nat.min 5 (length nows)) true ++ replicate (length nows - 5) false.
Proof.
  rewrite (check_all_window ip lo nows storage); rewrite ?Hfresh; try assumption.
  - reflexivity.
  - constructor.
  - cbn. lia.
Qed.

(** X16.  The window is half open: once every timestamp on record for an
    address is a day old or older, the next request is accepted, whatever
    was on record, and the record restarts with that request alone. *)
Theorem quota_restored_after_window now ip storage
    (Hold : Forall (fun t => RATE_LIMIT_WINDOW <= now - t) (entries storage ip)) :
  check_rate_limit now ip storage = (<[ip := [now]]> storage, true).
Proof.
  rewrite check_rate_limit_run. cbv zeta. rewrite recent_none by exact Hold.
  reflexivity.
Qed.

(** X17.  A request refused is not recorded: when five timestamps younger
    than a day are on record, [check_rate_limit] answers [False] and the
    record of the address is the one it had, so the refusals do not push the
    end of the limit further away. *)
Theorem refused_request_not_recorded now ip storage timestamps
    (Hrecord : storage !! ip = Some timestamps)
    (Hyoung : Forall (fun t => now - t < RATE_LIMIT_WINDOW) timestamps)
    (Hfull : (5 <= length timestamps)%nat) :
  check_rate_limit now ip storage = (storage, false).
Proof.
  rewrite check_rate_limit_run. cbv zeta. unfold entries. rewrite Hrecord. cbn [from_option id].
  rewrite recent_all by exact Hyoung.
  assert (Hleb : (RATE_LIMIT <=? Z.of_nat (length timestamps)) = true)
    by (apply Z.leb_le; unfold RATE_LIMIT; lia).
  rewrite Hleb. rewrite insert_id by exact Hrecord. reflexivity.
Qed.

Lemma limiter_step_other storage c ip :
  call_address c <> ip -> limiter_step storage c !! ip = storage !! ip.
Proof.
  intros Hne. destruct c as [now ip0 | now ip0]; cbn [limiter_step call_address] in *.
  - rewrite check_rate_limit_run. cbv zeta.
    destruct (RATE_LIMIT <=? _); cbn [fst]; apply lookup_insert_ne; exact Hne.
  - rewrite get_remaining_uses_run. cbn [fst]. apply lookup_insert_ne. exact Hne.
Qed.

(** X18.  Addresses do not share a quota: calls made for other addresses,
    however many, leave the record of an address as it was, and so the
    answer of [check_rate_limit] and the usage [get_remaining_uses] reports
    for it. *)
Theorem addresses_are_independent calls ip storage now
    (Hothers : Forall (fun c => call_address c <> ip) calls) :
  let storage' := foldl limiter_step storage calls in
  storage' !! ip = storage !! ip /\
  snd (check_rate_limit now ip storage') = snd (check_rate_limit now ip storage) /\
  snd (get_remaining_uses now ip storage') = snd (get_remaining_uses now ip storage).
Proof.
  cbv zeta.
  assert (Hsame : foldl limiter_step storage calls !! ip = storage !! ip).
  { revert storage. induction Hothers as [|c calls Hc _ IH]; intros storage;
      [reflexivity|].
    cbn [foldl]. rewrite IH. apply limiter_step_other. exact Hc. }
  split; [exact Hsame|].
  rewrite !check_rate_limit_run, !get_remaining_uses_run. cbv zeta.
  unfold entries. rewrite Hsame.
  split; [|reflexivity]. destruct (RATE_LIMIT <=? _); reflexivity.
Qed.

Lemma recent_recent now now' l : now' <= now -> recent now (recent now' l) = recent now l.
Proof.
  intros Hle. unfold recent. induction l as [|t l IH]; [reflexivity|].
  destruct (decide (now' - t < RATE_LIMIT_WINDOW)) as [Hin' | Hout'].
  - rewrite filter_cons_True by exact Hin'.
    destruct (decide (now - t < RATE_LIMIT_WINDOW)) as [Hin | Hout].
    + rewrite !filter_cons_True by exact Hin. f_equal. exact IH.
    + rewrite !filter_cons_False by exact Hout. exact IH.
  - rewrite filter_cons_False by exact Hout'.
    rewrite filter_cons_False by lia. exact IH.
Qed.

(** X19.  Asking for the usage costs nothing: after a call of
    [get_remaining_uses] at a time not later than the next request,
    [check_rate_limit] gives the answer it would have given without it and
    leaves the same storage. *)
Theorem usage_query_is_free now now' ip storage (Horder : now' <= now) :
  check_rate_limit now ip (fst (get_remaining_uses now' ip storage)) =
  check_rate_limit now ip storage.
Proof.
  rewrite get_remaining_uses_run. cbn [fst].
  rewrite !check_rate_limit_run. cbv zeta.
  rewrite entries_insert, recent_recent by exact Horder.
  destruct (RATE_LIMIT <=? _); rewrite insert_insert_eq; reflexivity.
Qed.

(** X20.  The usage reported after any run of calls from the empty
    storage adds up: [used] is between 0 and 5, [remaining] is [5 - used]
    and [limit] is 5. *)
Theorem usage_adds_up calls now ip :
  let u := snd (get_remaining_uses now ip (foldl limiter_step ∅ calls)) in
  0 <= used u <= 5 /\ remaining u = 5 - used u /\ limit u = 5.
Proof.
  cbv zeta. rewrite get_remaining_uses_run. cbn [snd used remaining limit].
  assert (Hreach : within_limit (foldl limiter_step ∅ calls)).
  { assert (Hgen : forall storage, within_limit storage ->
                     within_limit (foldl limiter_step storage calls)).
    { induction calls as [|c calls IH]; intros storage Hst; [exact Hst|].
      cbn [foldl]. apply IH. apply limiter_step_within_limit. exact Hst. }
    apply Hgen. intros ip0 l Hlook. rewrite lookup_empty in Hlook. discriminate. }
  pose proof (within_limit_entries _ ip Hreach) as Hent.
  pose proof (recent_length now (entries (foldl limiter_step ∅ calls) ip)) as Hlen.
  unfold RATE_LIMIT in *. repeat split; lia.
Qed.

(** ** The endpoints *)

Section EndpointProperties.
Context `{V : Vision} `{C : Codec}.

(** What [decode_process_encode] gives, by what decoding gives. *)
Lemma decode_process_encode_run file method intensity (s : store) :
  decode_process_encode file method intensity s =
    match imdecode (contents file) with
    | Raise e => (s, Raise e)
    | Ok None => (s, Ok None)
    | Ok (Some decoded) =>
        match process_image (length s) method intensity (s ++ [decoded]) with
        | (s1, Raise e) => (s1, Raise e)
        | (s1, Ok (processed_image, faces_count)) =>
            match imencode (s1 !!! processed_image) with
            | Ok buffer => (s1, Ok (Some (faces_count, buffer)))
            | Raise e => (s1, Raise e)
            end
        end
    end.
Proof.
  unfold decode_process_encode, bind, new_array, ret.
  destruct (imdecode (contents file)) as [[decoded|]|e]; try reflexivity.
  destruct (process_image (length s) method intensity (s ++ [decoded]))
    as [s1 [[processed_image faces_count]|e]]; [|reflexivity].
  destruct (imencode (s1 !!! processed_image)); reflexivity.
Qed.


(** X21.  A request the rate limiter refuses: both endpoints answer
    with status 429 before they look at the upload; no array is created or
    changed and no timestamp is recorded for the address. *)
Theorem refused_requests_get_429 now1 now2 client_ip file files method intensity sv
    (Hrefused : snd (check_rate_limit now1 client_ip (rate_limit_storage sv)) = false) :
  let image := anonymize_image_endpoint now1 now2 client_ip file method intensity sv in
  let batch := anonymize_batch_endpoint now1 now2 client_ip files method intensity sv in
  snd image = HTTPException 429 /\ snd batch = HTTPException 429 /\
  arrays (fst image) = arrays sv /\ arrays (fst batch) = arrays sv /\
  fst image = fst batch /\
  entries (rate_limit_storage (fst image)) client_ip =
    recent now2 (recent now1 (entries (rate_limit_storage sv) client_ip)).
Proof.
  cbv zeta. unfold anonymize_image_endpoint, anonymize_batch_endpoint.
  rewrite check_rate_limit_run in *. cbv zeta in *.
  destruct (RATE_LIMIT <=? _); [|discriminate]. cbn [negb].
  rewrite get_remaining_uses_run. cbn [fst snd arrays rate_limit_storage].
  rewrite !entries_insert. repeat split; reflexivity.
Qed.

(** X22.  An accepted request whose upload is not declared as an image:
    the image endpoint answers 400, and the request has been counted, since
    the rate limiter runs first: its timestamp is on record for the
    address. *)
Theorem rejected_upload_is_counted now1 now2 client_ip file method intensity sv ctype
    (Haccepted : snd (check_rate_limit now1 client_ip (rate_limit_storage sv)) = true)
    (Htype : content_type file = Some ctype)
    (Hnot_image : String.prefix "image/" ctype = false) :
  let out := anonymize_image_endpoint now1 now2 client_ip file method intensity sv in
  snd out = HTTPException 400 /\
  arrays (fst out) = arrays sv /\
  entries (rate_limit_storage (fst out)) client_ip =
    recent now1 (entries (rate_limit_storage sv) client_ip) ++ [now1].
Proof.
  cbv zeta. unfold anonymize_image_endpoint.
  rewrite check_rate_limit_run in *. cbv zeta in *.
  destruct (RATE_LIMIT <=? _); [discriminate|]. cbn [negb].
  rewrite Htype, Hnot_image. cbn [negb fst snd arrays rate_limit_storage].
  rewrite entries_insert. repeat split; reflexivity.
Qed.

(** X23.  An accepted upload declared as an image whose bytes do not
    decode: the [HTTPException(400)] of line 231 is raised inside the [try]
    block, [except Exception] catches it, and the endpoint answers 500. *)
Theorem undecodable_image_gets_500 now1 now2 client_ip file method intensity sv ctype
    (Haccepted : snd (check_rate_limit now1 client_ip (rate_limit_storage sv)) = true)
    (Htype : content_type file = Some ctype)
    (Himage : String.prefix "image/" ctype = true)
    (Hdecode : imdecode (contents file) = Ok None) :
  let out := anonymize_image_endpoint now1 now2 client_ip file method intensity sv in
  snd out = HTTPException 500 /\ arrays (fst out) = arrays sv.
Proof.
  cbv zeta. unfold anonymize_image_endpoint.
  destruct (check_rate_limit now1 client_ip (rate_limit_storage sv)) as [storage allowed].
  cbn [snd] in Haccepted. subst allowed. cbn [negb].
  rewrite Htype, Himage. cbn [negb].
  unfold try_except, bind. rewrite decode_process_encode_run, Hdecode.
  split; reflexivity.
Qed.







(** X27.  An accepted batch of more than ten files is refused with
    status 400 without a file being looked at, and it has been counted as a
    request all the same. *)
Theorem oversized_batch_is_counted now1 now2 client_ip files method intensity sv
    (Haccepted : snd (check_rate_limit now1 client_ip (rate_limit_storage sv)) = true)
    (Hsize : (10 < length files)%nat) :
  let out := anonymize_batch_endpoint now1 now2 client_ip files method intensity sv in
  snd out = HTTPException 400 /\
  arrays (fst out) = arrays sv /\
  entries (rate_limit_storage (fst out)) client_ip =
    recent now1 (entries (rate_limit_storage sv) client_ip) ++ [now1].
Proof.
  cbv zeta. unfold anonymize_batch_endpoint.
  rewrite check_rate_limit_run in *. cbv zeta in *.
  destruct (RATE_LIMIT <=? _); [discriminate|]. cbn [negb].
  assert (Hlt : (10 <? length files)%nat = true) by (apply Nat.ltb_lt; exact Hsize).
  rewrite Hlt. cbn [fst snd arrays rate_limit_storage].
  rewrite entries_insert. repeat split; reflexivity.
Qed.

End EndpointProperties.

(** * The further properties on concrete inputs *)

Lemma anonymize_face_frame_effect_witness :
  shape (fst (@anonymize_face V_face 0%nat 100 50 40 40 "blur" 51 [frame_640x480])
           !!! 0%nat) = shape frame_640x480.
Proof.
  destruct (@anonymize_face_frame_effect V_face 0%nat 100 50 40 40 "blur" 51
              [frame_640x480] _ _ ltac:(simpl; lia) (surjective_pairing _))
    as ((_ & Hshape & _) & _).
  exact Hshape.
Defined.

Lemma process_image_frame_effect_witness :
  shape (fst (@process_image V_face 0%nat "pixelate" 10 [frame_640x480]) !!! 0%nat)
    = shape frame_640x480.
Proof.
  destruct (@process_image_frame_effect V_face 0%nat "pixelate" 10 [frame_640x480]
              _ _ ltac:(simpl; lia) (surjective_pairing _))
    as ((_ & Hshape & _) & _).
  exact Hshape.
Defined.

Lemma mask_clips_to_frame_witness :
  exists s', @anonymize_face V_edge 0%nat 620 460 40 40 "mask" 51 [frame_640x480]
               = (s', Ok 0%nat) /\
             px (s' !!! 0%nat) 470 630 1 = 0 /\
             px (s' !!! 0%nat) 459 630 1 = px frame_640x480 459 630 1.
Proof.
  destruct (@mask_clips_to_frame V_edge 0%nat 620 460 40 40 51 [frame_640x480]
              frame_640x480 eq_refl ltac:(lia) ltac:(lia) ltac:(lia) ltac:(lia))
    as (s' & Hrun & _ & Hpx).
  exists s'. split; [exact Hrun|].
  split; rewrite Hpx by (simpl; lia); reflexivity.
Defined.

Lemma pixelate_past_edge_raises_witness :
  exists s', @anonymize_face V_edge 0%nat 620 460 40 40 "pixelate" 10 [frame_640x480]
               = (s', Raise ValueError).
Proof.
  destruct (@pixelate_past_edge_raises V_edge 0%nat 620 460 40 40 10 [frame_640x480]
              frame_640x480 eq_refl ltac:(simpl; lia) ltac:(simpl; lia) ltac:(simpl; lia)
              ltac:(lia) ltac:(lia) ltac:(simpl; lia))
    as (s' & Hrun & _).
  exists s'. exact Hrun.
Defined.

Lemma pixelate_zero_intensity_witness :
  @process_image V_face 0%nat "pixelate" 0 [frame_640x480]
    = ([frame_640x480], Raise ZeroDivisionError).
Proof.
  rewrite (@pixelate_zero_intensity V_face 0%nat [frame_640x480]
             [face_at 100 50 40 40] eq_refl).
  vm_compute. reflexivity.
Defined.

Lemma process_video_frames_witness :
  let out := @process_video V_face clip_30 "mask" 51 [] in
  length (out_frames (vs_out (fst out))) = 1%nat /\
  Forall (fun f => f ∈ vs_store (fst out)) [frame_640x480].
Proof.
  destruct (@process_video_frames V_face clip_30 "mask" 51 [] _ _ eq_refl
              (surjective_pairing _)) as (_ & _ & _ & Hok).
  destruct (Hok 1 1 ltac:(vm_compute; reflexivity)) as (Hlen & Hin & _).
  split; [exact Hlen | exact Hin].
Defined.

Lemma process_video_zero_frame_count_witness :
  exists st, @process_video V_none clip_unknown_length "none" 51 []
               = (st, Raise ZeroDivisionError) /\
             length (out_frames (vs_out st)) = 10%nat.
Proof.
  destruct (@process_video_zero_frame_count V_none clip_unknown_length "none" 51 []
              ltac:(right; reflexivity) eq_refl eq_refl ltac:(simpl; lia))
    as (st & Hrun & Hten & _).
  exists st. split; [exact Hrun | exact Hten].
Defined.

Lemma process_video_quiet_returns_witness :
  exists st total_faces,
    @process_video V_face clip_30 "mask" 51 [] = (st, Ok (total_faces, 1)) /\
    out_released (vs_out st) = true.
Proof.
  destruct (@process_video_quiet_returns V_face clip_30 "mask" 51 []
              ltac:(left; reflexivity) eq_refl ltac:(left; simpl; lia))
    as (st & tf & Hrun & _ & _ & _ & Hout).
  exists st, tf. split; [exact Hrun | exact Hout].
Defined.

Lemma process_video_unopened_witness :
  exists st, @process_video V_face clip_unreadable "blur" 51 [] = (st, Ok (0, 0)) /\
             out_frames (vs_out st) = [].
Proof.
  destruct (@process_video_unopened V_face clip_unreadable "blur" 51 [] eq_refl)
    as (st & Hrun & _ & _ & _ & Hnone & _).
  exists st. split; [exact Hrun | exact Hnone].
Defined.

Lemma locator_reads_detections_witness :
  @detect_faces_deepface V_edge 0%nat [frame_640x480]
    = ([frame_640x480], Ok [(620, 460, 40, 40)]).
Proof.
  destruct (@locator_reads_detections V_edge 0%nat [frame_640x480]
              [face_at 620 460 40 40] eq_refl) as (Hrun & _ & _ & Hsame).
  rewrite Hrun.
  exact (f_equal (fun r => ([frame_640x480], Ok r)) (Hsame [(620, 460, 40, 40)])).
Defined.

Lemma first_five_requests_accepted_witness :
  check_all "203.0.113.7" [0; 1000; 2000; 3000; 4000; 5000; 6000]
    (rate_limit_storage idle_server)
    = [true; true; true; true; true; false; false].
Proof.
  rewrite (first_five_requests_accepted "203.0.113.7" 0
             [0; 1000; 2000; 3000; 4000; 5000; 6000] (rate_limit_storage idle_server)
             ltac:(vm_compute; reflexivity)).
  - reflexivity.
  - repeat (constructor; [unfold RATE_LIMIT_WINDOW; lia|]). constructor.
Defined.

Lemma quota_restored_after_window_witness :
  snd (check_rate_limit 86404000000 "203.0.113.7" (rate_limit_storage busy_server))
    = true.
Proof.
  rewrite (quota_restored_after_window 86404000000 "203.0.113.7"
             (rate_limit_storage busy_server)).
  - reflexivity.
  - repeat (constructor; [unfold RATE_LIMIT_WINDOW; lia|]). constructor.
Defined.

Lemma refused_request_not_recorded_witness :
  check_rate_limit 5000000 "203.0.113.7" (rate_limit_storage busy_server)
    = (rate_limit_storage busy_server, false).
Proof.
  apply (refused_request_not_recorded 5000000 "203.0.113.7"
           (rate_limit_storage busy_server)
           [0; 1000000; 2000000; 3000000; 4000000] eq_refl).
  - repeat (constructor; [unfold RATE_LIMIT_WINDOW; lia|]). constructor.
  - simpl. lia.
Defined.

Lemma addresses_are_independent_witness :
  snd (check_rate_limit 7000000 "203.0.113.7"
         (foldl limiter_step (rate_limit_storage busy_server)
            [Check 5000000 "198.51.100.2"; Query 6000000 "198.51.100.2"]))
    = snd (check_rate_limit 7000000 "203.0.113.7" (rate_limit_storage busy_server)).
Proof.
  destruct (addresses_are_independent
              [Check 5000000 "198.51.100.2"; Query 6000000 "198.51.100.2"]
              "203.0.113.7" (rate_limit_storage busy_server) 7000000) as (_ & Hsame & _).
  - repeat (constructor; [discriminate|]). constructor.
  - exact Hsame.
Defined.

Lemma usage_query_is_free_witness :
  check_rate_limit 7000000 "203.0.113.7"
    (fst (get_remaining_uses 6000000 "203.0.113.7" (rate_limit_storage busy_server)))
  = check_rate_limit 7000000 "203.0.113.7" (rate_limit_storage busy_server).
Proof.
  apply (usage_query_is_free 7000000 6000000 "203.0.113.7"
           (rate_limit_storage busy_server)). lia.
Defined.

Lemma refused_requests_get_429_witness :
  snd (@anonymize_image_endpoint V_face scripted_codec 5000000 5000001 "203.0.113.7"
         photo "blur" 51 busy_server) = HTTPException 429.
Proof.
  destruct (@refused_requests_get_429 V_face scripted_codec 5000000 5000001
              "203.0.113.7" photo [photo] "blur" 51 busy_server eq_refl) as (Himg & _).
  exact Himg.
Defined.

Lemma rejected_upload_is_counted_witness :
  let out := @anonymize_image_endpoint V_face scripted_codec 0 1 "203.0.113.7"
               notes "blur" 51 idle_server in
  snd out = HTTPException 400 /\
  entries (rate_limit_storage (fst out)) "203.0.113.7" = [0].
Proof.
  destruct (@rejected_upload_is_counted V_face scripted_codec 0 1 "203.0.113.7"
              notes "blur" 51 idle_server "text/plain" eq_refl eq_refl eq_refl)
    as (Hstatus & _ & Hrecord).
  split; [exact Hstatus | exact Hrecord].
Defined.

Lemma undecodable_image_gets_500_witness :
  snd (@anonymize_image_endpoint V_face scripted_codec 0 1 "203.0.113.7"
         broken "blur" 51 idle_server) = HTTPException 500.
Proof.
  destruct (@undecodable_image_gets_500 V_face scripted_codec 0 1 "203.0.113.7"
              broken "blur" 51 idle_server "image/jpeg" eq_refl eq_refl eq_refl eq_refl)
    as (Hstatus & _).
  exact Hstatus.
Defined.




Lemma oversized_batch_is_counted_witness :
  let out := @anonymize_batch_endpoint V_face scripted_codec 0 1 "203.0.113.7"
               (replicate 11 photo) "mask" 51 idle_server in
  snd out = HTTPException 400 /\
  entries (rate_limit_storage (fst out)) "203.0.113.7" = [0].
Proof.
  destruct (@oversized_batch_is_counted V_face scripted_codec 0 1 "203.0.113.7"
              (replicate 11 photo) "mask" 51 idle_server eq_refl ltac:(simpl; lia))
    as (Hstatus & _ & Hrecord).
  split; [exact Hstatus | exact Hrecord].
Defined.

Lemma process_image_masks_all_regions_witness :
  exists s', @process_image V_pair 0%nat "mask" 51 [frame_640x480] = (s', Ok (0%nat, 2)) /\
             px (s' !!! 0%nat) 70 130 0 = 0 /\
             px (s' !!! 0%nat) 95 130 0 = 0 /\
             px (s' !!! 0%nat) 120 130 0 = px frame_640x480 120 130 0.
Proof.
  destruct (@process_image_masks_all_regions V_pair 0%nat 51 [frame_640x480]
              frame_640x480 [(100, 50, 40, 40); (120, 60, 40, 40)] eq_refl
              ltac:(vm_compute; reflexivity))
    as (s' & Hrun & _ & Hpx).
  - repeat (constructor; [cbn; lia|]). constructor.
  - exists s'. split; [exact Hrun|].
    repeat split; rewrite Hpx by (simpl; lia); reflexivity.
Defined.

Lemma process_image_unrecognized_counts_witness :
  exists s', @process_image V_face 0%nat "pixellate" 51 [frame_640x480]
               = (s', Ok (0%nat, 1)) /\
             px (s' !!! 0%nat) 60 110 2 = px frame_640x480 60 110 2.
Proof.
  destruct (@process_image_unrecognized_counts V_face 0%nat "pixellate" 51
              [frame_640x480] frame_640x480 [(100, 50, 40, 40)] eq_refl eq_refl
              ltac:(vm_compute; reflexivity))
    as (s' & Hrun & _ & Hpx).
  exists s'. split; [exact Hrun|]. apply Hpx. simpl. lia.
Defined.

Lemma blur_writes_blurred_region_witness :
  exists s', @anonymize_face V_face 0%nat 100 50 40 40 "blur" 50 [frame_640x480]
               = (s', Ok 0%nat) /\
             shape (s' !!! 0%nat) = shape frame_640x480.
Proof.
  destruct (pair_blur (region_view frame_640x480 100 50 40 40) (51, 51) 0)
    as [blurred|e] eqn:Hblur; [|vm_compute in Hblur; discriminate].
  destruct (@blur_writes_blurred_region V_face 0%nat 100 50 40 40 50 [frame_640x480]
              frame_640x480 blurred eq_refl frame_640x480_inside Hblur)
    as (s' & Hrun & Hshape & _).
  - vm_compute in Hblur. injection Hblur as <-. reflexivity.
  - exists s'. split; [exact Hrun | exact Hshape].
Defined.
